(** * In-market Audiences Bidding: a shallow embedding of
      [mv_audience_bid_neg_modifier.js] and the properties of its
      bid-modifier pipeline.

    Conventions of the embedding.
    - A JavaScript Number is an IEEE 754 binary64 value: [spec_float] with
      precision 53 and maximal exponent 1024 (one NaN, two zeros).
    - A JavaScript object made by [{}] and used as a dictionary is a [gmap]
      of its own properties.  Assigning under the name [__proto__] stores
      nothing; reading a name the object does not own goes to
      [Object.prototype], and is [undefined] for every name but the members
      of that prototype.
    - Text is held as UTF-8.
    - The Google Ads account is data: campaigns with their ad groups and
      audiences; selectors are lists with the conditions added so far, and
      [get] keeps the entities that meet all of them.
    - Calls on the account made by [makeAllOperations] and [applyBids] are
      recorded in a log, so that what the script visits can be stated. *)

From Stdlib Require Import ZArith String Ascii SpecFloat Lia.
From Stdlib Require Import DecimalString.
From stdpp Require Import base option list strings gmap.

Local Open Scope string_scope.
Local Open Scope list_scope.
Local Open Scope Z_scope.

(** ** JavaScript numbers *)

Module Number.

Definition prec : Z := 53.
Definition emax : Z := 1024.

Abbreviation number := spec_float.

Definition NaN : number := S754_nan.
Definition zero : number := S754_zero false.
Definition negzero : number := S754_zero true.

(** [x / y] *)
Definition div (x y : number) : number := SFdiv prec emax x y.

(** [x > y] *)
Definition gt (x y : number) : bool := SFltb y x.

(** [x == y] on two numbers *)
Definition equals (x y : number) : bool := SFeqb x y.

(** The same number: identical, or equal as numbers (the two zeros). *)
Definition sameNumber (x y : number) : Prop := x = y \/ equals x y = true.

(** The Number nearest to the integer [m] (ties to even). *)
Definition ofZ (m : Z) : number := binary_normalize prec emax m 0 false.

(** The Number nearest to [m * 10^e], for a digit string read as the
    natural number [m]; [neg] is the sign that was read. *)
Definition ofDecimal (neg : bool) (m : N) (e : Z) : number :=
  match m with
  | N0 => S754_zero neg
  | Npos p =>
      if 0 <=? e
      then binary_normalize prec emax
             ((if neg then Z.neg else Z.pos) (p * Z.to_pos (10 ^ e))%positive) 0 neg
      else SFdiv prec emax (S754_finite neg p 0)
             (S754_finite false (Z.to_pos (10 ^ (- e))) 0)
  end.

End Number.

Import Number.

(** ** Strings as the script uses them *)

Module Str.

Definition isUpper (c : ascii) : bool :=
  let n := nat_of_ascii c in (65 <=? n)%nat && (n <=? 90)%nat.

Definition lowerChar (c : ascii) : ascii :=
  if isUpper c then ascii_of_nat (nat_of_ascii c + 32) else c.

(** Case is folded on the ASCII letters. *)
Fixpoint toLowerCase (s : string) : string :=
  match s with
  | EmptyString => EmptyString
  | String c r => String (lowerChar c) (toLowerCase r)
  end.

(** [s.startsWith(p)] *)
Fixpoint startsWith (p s : string) : bool :=
  match p, s with
  | EmptyString, _ => true
  | String a p', String b s' => Ascii.eqb a b && startsWith p' s'
  | String _ _, EmptyString => false
  end.

(** [s.includes(p)] *)
Fixpoint includes (p s : string) : bool :=
  startsWith p s ||
  match s with
  | EmptyString => false
  | String _ s' => includes p s'
  end.

(** The character U+0022 (double quote) and U+005C (backslash). *)
Definition dquote : ascii := ascii_of_nat 34.
Definition backslash : ascii := ascii_of_nat 92.

(** [part.replace(/\x22/g, ...)] as the script calls it: a backslash goes in
    front of every double quote of [part]. *)
Fixpoint escapeDoubleQuotes (s : string) : string :=
  match s with
  | EmptyString => EmptyString
  | String c r =>
      if Ascii.eqb c dquote
      then String backslash (String c (escapeDoubleQuotes r))
      else String c (escapeDoubleQuotes r)
  end.

(** How the query language reads the inside of a quoted literal back: a
    backslash stands for the character that follows it.  (A part with a single
    quote of its own would end the literal early; that is left out.) *)
Fixpoint readLiteral (s : string) : string :=
  match s with
  | EmptyString => EmptyString
  | String c r =>
      if Ascii.eqb c backslash
      then match r with
           | EmptyString => EmptyString
           | String d r' => String d (readLiteral r')
           end
      else String c (readLiteral r)
  end.

(** White space that [parseFloat] skips: the characters of one byte. *)
Definition isWhiteSpace (c : ascii) : bool :=
  let n := nat_of_ascii c in ((9 <=? n)%nat && (n <=? 13)%nat) || (n =? 32)%nat.

Definition isByte (c : ascii) (n : nat) : bool := (nat_of_ascii c =? n)%nat.

(** U+00A0, as the two bytes that encode it. *)
Definition isNoBreakSpace (a b : ascii) : bool := isByte a 194 && isByte b 160.

(** The white space and line terminators of three bytes: U+1680,
    U+2000 to U+200A, U+2028, U+2029, U+202F, U+205F, U+3000 and U+FEFF. *)
Definition isWideWhiteSpace (a b c : ascii) : bool :=
  let n := nat_of_ascii c in
  (isByte a 225 && isByte b 154 && isByte c 128)
  || (isByte a 226 && isByte b 128
      && (((128 <=? n)%nat && (n <=? 138)%nat)
          || isByte c 168 || isByte c 169 || isByte c 175))
  || (isByte a 226 && isByte b 129 && isByte c 159)
  || (isByte a 227 && isByte b 128 && isByte c 128)
  || (isByte a 239 && isByte b 187 && isByte c 191).

(** Drops the white space at the front: every white space character and line
    terminator of the language. *)
Fixpoint trimStart (s : string) : string :=
  match s with
  | EmptyString => EmptyString
  | String c r =>
      if isWhiteSpace c then trimStart r
      else
        match r with
        | EmptyString => s
        | String c1 r1 =>
            if isNoBreakSpace c c1 then trimStart r1
            else
              match r1 with
              | EmptyString => s
              | String c2 r2 =>
                  if isWideWhiteSpace c c1 c2 then trimStart r2 else s
              end
        end
  end.

Definition digitValue (c : ascii) : option N :=
  let n := nat_of_ascii c in
  if (48 <=? n)%nat && (n <=? 57)%nat then Some (N.of_nat (n - 48)) else None.

(** Reads the decimal digits at the front of [s] onto [acc]; returns the
    number read, how many digits it took, and the rest of the string. *)
Fixpoint readDigits (s : string) (acc : N) (count : Z) : N * Z * string :=
  match s with
  | String c r =>
      match digitValue c with
      | Some d => readDigits r (10 * acc + d)%N (count + 1)
      | None => (acc, count, s)
      end
  | EmptyString => (acc, count, s)
  end.

Definition readSign (s : string) : bool * string :=
  match s with
  | String c r =>
      if Ascii.eqb c "-"%char then (true, r)
      else if Ascii.eqb c "+"%char then (false, r)
      else (false, s)
  | EmptyString => (false, s)
  end.

(** The exponent part, when one is there: [e] or [E], an optional sign and
    at least one digit; otherwise the exponent is 0. *)
Definition readExponent (s : string) : Z :=
  match s with
  | String c r =>
      if Ascii.eqb c "e"%char || Ascii.eqb c "E"%char then
        let '(neg, r1) := readSign r in
        let '(m, n, _) := readDigits r1 0%N 0 in
        if n =? 0 then 0 else if neg then - Z.of_N m else Z.of_N m
      else 0
  | EmptyString => 0
  end.

(** [parseFloat] on a string: the longest prefix, after leading white space,
    that is a decimal literal; NaN when there is none. *)
Definition parseDecimal (s : string) : number :=
  let '(neg, s1) := readSign (trimStart s) in
  if startsWith "Infinity" s1 then S754_infinity neg else
  let '(m1, n1, s2) := readDigits s1 0%N 0 in
  let '(m2, n2, s3) :=
    match s2 with
    | String c r => if Ascii.eqb c "."%char then readDigits r m1 0 else (m1, 0, s2)
    | EmptyString => (m1, 0, s2)
    end in
  if n1 + n2 =? 0 then NaN
  else ofDecimal neg m2 (readExponent s3 - n2).

End Str.

Import Str.

(** ** JavaScript values the script passes around *)

Inductive value :=
| undefined
| str (s : string)
| num (x : number)
| inherited (name : string).

(** [parseFloat(v)]: the argument is first turned into a string.  [undefined]
    prints as the word undefined.  A Number prints so that it reads back as
    the same Number, except that both zeros print as 0.  A member of
    [Object.prototype] ([inherited]) is a function or the prototype object;
    neither prints as text that starts like a number. *)
Definition parseFloat (v : value) : number :=
  match v with
  | undefined => parseDecimal "undefined"
  | str s => parseDecimal s
  | num (S754_zero _) => zero
  | num x => x
  | inherited _ => NaN
  end.

(** [array[i]] for an index computed by the script. *)
Definition item {A} (array : list A) (i : Z) : option A :=
  if i <? 0 then None else array !! Z.to_nat i.

(** [array.indexOf(x)]: the first position of [x], or -1. *)
Fixpoint indexOf `{EqDecision A} (array : list A) (x : A) : Z :=
  match array with
  | [] => -1
  | y :: rest =>
      if decide (y = x) then 0
      else let i := indexOf rest x in if i =? -1 then -1 else i + 1
  end.

(** The property name an array cell becomes when used as a key. *)
Definition propertyKey (cell : option string) : string :=
  default "undefined" cell.

(** The names every object made by [{}] answers through [Object.prototype]. *)
Definition prototypeNames : list string :=
  ["constructor"; "__defineGetter__"; "__defineSetter__"; "hasOwnProperty";
   "__lookupGetter__"; "__lookupSetter__"; "isPrototypeOf";
   "propertyIsEnumerable"; "toString"; "valueOf"; "__proto__";
   "toLocaleString"].

(** [object[key]] on a dictionary of values: the object's own property, or
    else what the prototype holds under that name. *)
Definition property (object : gmap string value) (key : string) : value :=
  match object !! key with
  | Some v => v
  | None => if decide (key ∈ prototypeNames) then inherited key else undefined
  end.

(** [object[key] = v] on a dictionary, for a value that is a string or
    [undefined]: under the name [__proto__] the assignment goes to the
    prototype's setter, which ignores such a value, and nothing is stored. *)
Definition assign {V} (object : gmap string V) (key : string) (v : V)
  : gmap string V :=
  if decide (key = "__proto__") then object else <[key := v]> object.

Inductive exn :=
| Error (message : string)
| TypeError (message : string).

(** ** Configuration: the constants at the head of the script *)

Record Config := {
  DATE_RANGE : string;
  MINIMUM_IMPRESSIONS : Z;
  CAMPAIGN_NAME_DOES_NOT_CONTAIN : list string;
  CAMPAIGN_NAME_CONTAINS : list string;
}.

(** The values the repository ships. *)
Definition shipped : Config := {|
  DATE_RANGE := "LAST_7_DAYS";
  MINIMUM_IMPRESSIONS := 50;
  CAMPAIGN_NAME_DOES_NOT_CONTAIN := [];
  CAMPAIGN_NAME_CONTAINS := ["_Search_"];
|}.

(** ** The account: what the Google Ads objects hold *)

Record Stats := {
  getImpressions : Z;
  getConversions : number;
  getCost : number;
}.

Record Audience := {
  getAudienceId : string;
  audienceStats : string -> Stats;
}.

Record AdGroup := {
  adGroupId : string;
  adGroupStats : string -> Stats;
  adGroupAudiences : list Audience;
}.

Record Campaign := {
  campaignId : string;
  getName : string;
  campaignStats : string -> Stats;
  campaignAudiences : list Audience;
  campaignAdGroups : list AdGroup;
}.

(** Objects that answer [getStatsFor(dateRange)]. *)
Class HasStats (A : Type) := getStatsFor : A -> string -> Stats.

#[export] Instance audience_stats : HasStats Audience := audienceStats.
#[export] Instance adGroup_stats : HasStats AdGroup := adGroupStats.
#[export] Instance campaign_stats : HasStats Campaign := campaignStats.

(** A targeting entity is a campaign or an ad group. *)
Inductive Entity :=
| OfCampaign (campaign : Campaign)
| OfAdGroup (adGroup : AdGroup).

(** [entity.targeting().audiences()]: every audience attached at that level. *)
Definition targetingAudiences (entity : Entity) : list Audience :=
  match entity with
  | OfCampaign c => campaignAudiences c
  | OfAdGroup g => adGroupAudiences g
  end.

(** ** Selectors *)

(** A condition is judged on an entity, under the selector's date range. *)
Definition condition (A : Type) : Type := option string -> A -> bool.

Record Selector (A : Type) := {
  candidates : list A;
  dateRange : option string;
  conditions : list (condition A);
}.
Arguments candidates {A}.
Arguments dateRange {A}.
Arguments conditions {A}.

Definition selector {A} (entities : list A) : Selector A :=
  {| candidates := entities; dateRange := None; conditions := [] |}.

Definition withCondition {A} (s : Selector A) (c : condition A) : Selector A :=
  {| candidates := candidates s; dateRange := dateRange s;
     conditions := conditions s ++ [c] |}.

Definition forDateRange {A} (s : Selector A) (range : string) : Selector A :=
  {| candidates := candidates s; dateRange := Some range;
     conditions := conditions s |}.

(** [selector.get()]: the entities that meet every condition added. *)
Definition get {A} (s : Selector A) : list A :=
  filter (fun a => forallb (fun c : condition A => c (dateRange s) a) (conditions s))
         (candidates s).

(** [iterator.totalNumEntities()] *)
Definition totalNumEntities {A} (iterator : list A) : Z :=
  Z.of_nat (length iterator).

(** [CampaignName CONTAINS_IGNORE_CASE 'literal'] *)
Definition CampaignName_CONTAINS_IGNORE_CASE (literal : string)
  : condition Campaign :=
  fun _ c => includes (toLowerCase (readLiteral literal)) (toLowerCase (getName c)).

(** [CampaignName DOES_NOT_CONTAIN_IGNORE_CASE 'literal'] *)
Definition CampaignName_DOES_NOT_CONTAIN_IGNORE_CASE (literal : string)
  : condition Campaign :=
  fun _ c => negb (includes (toLowerCase (readLiteral literal)) (toLowerCase (getName c))).

(** [Impressions > n], over the selector's date range. *)
Definition Impressions_GREATER_THAN `{HasStats A} (n : Z) : condition A :=
  fun range a =>
    match range with
    | Some r => n <? getImpressions (getStatsFor a r)
    | None => false
    end.

(** ** The script's calls on the account, as a log *)

Inductive call :=
| Campaigns_get (found : list Campaign)
| CampaignAudiences_totalNumEntities (campaign : Campaign)
| Audiences_get (entity : Entity)
| AdGroups_get (campaign : Campaign)
| Bidding_setBidModifier (audience : Audience) (modifier : number).

Definition Script (A : Type) : Type := list call * A.

#[export] Instance script_ret : MRet Script := fun A x => ([], x).

#[export] Instance script_bind : MBind Script :=
  fun A B f m => let '(log1, a) := m in let '(log2, b) := f a in (log1 ++ log2, b).

Definition tell (c : call) : Script unit := ([c], tt).

Definition calls {A} (m : Script A) : list call := fst m.
Definition result {A} (m : Script A) : A := snd m.

(** [while (iterator.hasNext()) { x = iterator.next(); body }] with the
    variables the body assigns as [s]. *)
Fixpoint whileHasNext {A S} (iterator : list A) (body : A -> S -> Script S) (s : S)
  : Script S :=
  match iterator with
  | [] => mret s
  | x :: rest => s' ← body x s; whileHasNext rest body s'
  end.

Record Operation := {
  audience : Audience;
  modifier : number;
}.

(** ** The script *)

(** [getInMarketAudienceMapping], on the rows [Utilities.parseCsv] returned
    for the download. *)
Definition getInMarketAudienceMapping (csv : list (list string))
  : exn + gmap string (option string) :=
  match csv with
  | [] => inl (TypeError "Cannot call method indexOf of undefined")
  | headers :: rows =>
      let indexOfId := indexOf headers "Criterion ID" in
      let indexOfName := indexOf headers "Category" in
      if (indexOfId =? -1) || (indexOfName =? -1)
      then inl (Error "The audience CSV does not have the expected headers")
      else inr (fold_left
                  (fun mapping row =>
                     assign mapping (propertyKey (item row indexOfId))
                       (item row indexOfName))
                  rows ∅)
  end.

Section Pipeline.

Context (cfg : Config).

Definition filterCampaignsBasedOnName (campaigns : Selector Campaign)
  : Selector Campaign :=
  let campaigns :=
    fold_left (fun campaigns part =>
                 withCondition campaigns
                   (CampaignName_DOES_NOT_CONTAIN_IGNORE_CASE (escapeDoubleQuotes part)))
              (CAMPAIGN_NAME_DOES_NOT_CONTAIN cfg) campaigns in
  fold_left (fun campaigns part =>
               withCondition campaigns
                 (CampaignName_CONTAINS_IGNORE_CASE (escapeDoubleQuotes part)))
            (CAMPAIGN_NAME_CONTAINS cfg) campaigns.

Definition filterEntitiesBasedOnDateAndImpressions `{HasStats A}
  (selector : Selector A) : Selector A :=
  withCondition (forDateRange selector (DATE_RANGE cfg))
                (Impressions_GREATER_THAN (MINIMUM_IMPRESSIONS cfg)).

Definition isAudienceInMarketAudience (audience : Audience)
  (inMarketIds : list string) : bool :=
  indexOf inMarketIds (getAudienceId audience) >? -1.

(** [Object.keys(audienceMapping)] *)
Definition keys {V} (object : gmap string V) : list string :=
  (map_to_list object).*1.

Definition getAudiencesFromEntity {V} (entity : Entity)
  (audienceMapping : gmap string V) : Script (list Audience) :=
  let inMarketIds := keys audienceMapping in
  _ ← tell (Audiences_get entity);
  let allAudiences :=
    get (withCondition
           (forDateRange (selector (targetingAudiences entity)) (DATE_RANGE cfg))
           (Impressions_GREATER_THAN (MINIMUM_IMPRESSIONS cfg))) in
  mret (fold_left
          (fun inMarketAudiences audience =>
             if isAudienceInMarketAudience audience inMarketIds
             then inMarketAudiences ++ [audience]
             else inMarketAudiences)
          allAudiences []).

(** The [forEach] body assigns [entityCpa] and pushes onto [operations]; both
    are carried from one audience to the next. *)
Definition makeOperations (entityCpa : value) (audiences : list Audience)
  : list Operation :=
  snd (fold_left
         (fun '(entityCpa, operations) audience =>
            let stats := getStatsFor audience (DATE_RANGE cfg) in
            let conversions := getConversions stats in
            if gt conversions zero then
              let audienceCpa := div (getCost stats) (getConversions stats) in
              let entityCpa := parseFloat entityCpa in
              let modifier := div entityCpa audienceCpa in
              (num entityCpa,
               operations ++ [{| audience := audience; modifier := modifier |}])
            else (entityCpa, operations))
         audiences (entityCpa, [])).

Definition makeOperationsFromEntity {V} (entity : Entity) (entityCpa : value)
  (audienceMapping : gmap string V) : Script (list Operation) :=
  entityAudiences ← getAudiencesFromEntity entity audienceMapping;
  mret (makeOperations entityCpa entityAudiences).

Definition campaignHasAnyCampaignLevelAudiences (campaign : Campaign)
  : Script bool :=
  _ ← tell (CampaignAudiences_totalNumEntities campaign);
  mret (totalNumEntities (get (selector (campaignAudiences campaign))) >? 0).

(** [makeAllOperations], on the campaigns [AdWordsApp.campaigns()] holds. *)
Definition makeAllOperations {V} (account : list Campaign)
  (audienceMapping : gmap string V)
  (campaignPerformance adGroupPerformance : gmap string value)
  : Script (list Operation) :=
  let allCampaigns := filterCampaignsBasedOnName (selector account) in
  let filteredCampaigns := get (filterEntitiesBasedOnDateAndImpressions allCampaigns) in
  _ ← tell (Campaigns_get filteredCampaigns);
  whileHasNext filteredCampaigns
    (fun campaign operations =>
       hasAny ← campaignHasAnyCampaignLevelAudiences campaign;
       if hasAny : bool then
         operationsFromCampaign ←
           makeOperationsFromEntity (OfCampaign campaign)
             (property campaignPerformance (campaignId campaign)) audienceMapping;
         mret (operations ++ operationsFromCampaign)
       else
         _ ← tell (AdGroups_get campaign);
         let adGroups :=
           get (filterEntitiesBasedOnDateAndImpressions
                  (selector (campaignAdGroups campaign))) in
         whileHasNext adGroups
           (fun adGroup operations =>
              operationsFromAdGroup ←
                makeOperationsFromEntity (OfAdGroup adGroup)
                  (property adGroupPerformance (adGroupId adGroup)) audienceMapping;
              mret (operations ++ operationsFromAdGroup))
           operations)
    [].

End Pipeline.

Definition applyBids (operations : list Operation) : Script unit :=
  whileHasNext operations
    (fun operation _ =>
       tell (Bidding_setBidModifier (audience operation) (modifier operation)))
    tt.

(** ** Vocabulary of the statements *)

Section Vocabulary.

Context (cfg : Config).

(** The campaigns the outer loop of [makeAllOperations] goes through. *)
Definition survivingCampaigns (account : list Campaign) : list Campaign :=
  get (filterEntitiesBasedOnDateAndImpressions cfg
         (filterCampaignsBasedOnName cfg (selector account))).

(** The ad groups the inner loop goes through for one campaign. *)
Definition survivingAdGroups (campaign : Campaign) : list AdGroup :=
  get (filterEntitiesBasedOnDateAndImpressions cfg
         (selector (campaignAdGroups campaign))).

(** The audiences [makeOperations] is given for one entity. *)
Definition keptAudiences {V} (entity : Entity) (audienceMapping : gmap string V)
  : list Audience :=
  result (getAudiencesFromEntity cfg entity audienceMapping).

Definition conversionsOf (a : Audience) : number :=
  getConversions (getStatsFor a (DATE_RANGE cfg)).

Definition costOf (a : Audience) : number :=
  getCost (getStatsFor a (DATE_RANGE cfg)).

Definition impressionsOf `{HasStats A} (a : A) : Z :=
  getImpressions (getStatsFor a (DATE_RANGE cfg)).

(** [conversions > 0] *)
Definition hasConversions (a : Audience) : bool := gt (conversionsOf a) zero.

(** The formula of the specification: the entity's cost per conversion over
    the audience's. *)
Definition modifierFormula (entityCpa audienceCost audienceConversions : number)
  : number :=
  div entityCpa (div audienceCost audienceConversions).

Definition operationFor (entityCpa : number) (a : Audience) : Operation :=
  {| audience := a;
     modifier := modifierFormula entityCpa (costOf a) (conversionsOf a) |}.

(** What one pass of the outer loop logs and what it adds to [operations]. *)
Definition campaignCalls (campaign : Campaign) : list call :=
  CampaignAudiences_totalNumEntities campaign ::
  if totalNumEntities (get (selector (campaignAudiences campaign))) >? 0
  then [Audiences_get (OfCampaign campaign)]
  else AdGroups_get campaign ::
       ((fun g => Audiences_get (OfAdGroup g)) <$> survivingAdGroups campaign).

Definition campaignOperations {V} (audienceMapping : gmap string V)
  (campaignPerformance adGroupPerformance : gmap string value)
  (campaign : Campaign) : list Operation :=
  if totalNumEntities (get (selector (campaignAudiences campaign))) >? 0
  then makeOperations cfg (property campaignPerformance (campaignId campaign))
         (keptAudiences (OfCampaign campaign) audienceMapping)
  else concat
         ((fun g => makeOperations cfg (property adGroupPerformance (adGroupId g))
                      (keptAudiences (OfAdGroup g) audienceMapping))
            <$> survivingAdGroups campaign).

(** Campaign granularity: the campaign's own audiences against the campaign
    performance entry of the campaign's id. *)
Definition operationsAtCampaignLevel {V} (audienceMapping : gmap string V)
  (campaignPerformance : gmap string value) (campaign : Campaign)
  : list Operation :=
  result (makeOperationsFromEntity cfg (OfCampaign campaign)
            (property campaignPerformance (campaignId campaign)) audienceMapping).

(** Ad group granularity: for each ad group of the campaign that passes the
    date and impressions filter, the ad group's audiences against the ad
    group performance entry of the ad group's id. *)
Definition operationsAtAdGroupLevel {V} (audienceMapping : gmap string V)
  (adGroupPerformance : gmap string value) (campaign : Campaign)
  : list Operation :=
  concat
    ((fun adGroup =>
        result (makeOperationsFromEntity cfg (OfAdGroup adGroup)
                  (property adGroupPerformance (adGroupId adGroup)) audienceMapping))
       <$> survivingAdGroups campaign).

End Vocabulary.

(** The literal a name filter ends up comparing with, for a configured part. *)
Definition literalOf (part : string) : string :=
  readLiteral (escapeDoubleQuotes part).

(** The campaign name contains [text], ignoring case. *)
Definition nameContains (text : string) (campaign : Campaign) : bool :=
  includes (toLowerCase text) (toLowerCase (getName campaign)).

(** An audience the mapping recognises as in-market. *)
Definition inMarket {V} (audienceMapping : gmap string V) (a : Audience) : Prop :=
  getAudienceId a ∈ dom audienceMapping.

(** A part that goes into its condition as it is and is read back as it is:
    no backslash and no quote of either kind in it. *)
Definition plainPart (part : string) : Prop :=
  (backslash ∉ list_ascii_of_string part)
  /\ (dquote ∉ list_ascii_of_string part)
  /\ ("'"%char ∉ list_ascii_of_string part).


(** The Criterion ID and the Category the loader reads off a data row. *)
Definition criterionIdOf (headers row : list string) : string :=
  propertyKey (item row (indexOf headers "Criterion ID")).

Definition categoryOf (headers row : list string) : option string :=
  item row (indexOf headers "Category").

(** ** Scenarios *)

Module Scenario.

Definition stats (impressions conversions cost : Z) : string -> Stats :=
  fun _ => {| getImpressions := impressions;
              getConversions := ofZ conversions;
              getCost := ofZ cost |}.

Definition audience111 : Audience :=
  {| getAudienceId := "111"; audienceStats := stats 100 5 10 |}.

Definition audience222 : Audience :=
  {| getAudienceId := "222"; audienceStats := stats 100 0 10 |}.

Definition audience333 : Audience :=
  {| getAudienceId := "333"; audienceStats := stats 100 5 10 |}.

Definition mapping : gmap string (option string) :=
  <["111" := Some "Shoppers"]> (<["222" := Some "Researchers"]> ∅).

Definition relabelled : gmap string (option string) :=
  <["111" := Some "Researchers"]> (<["222" := None]> ∅).

Definition campaignPerformance : gmap string value :=
  <["C1" := str "2.50"]> ∅.

Definition adGroupPerformance : gmap string value :=
  <["G1" := str "4"]> ∅.

Definition campaignC1 : Campaign :=
  {| campaignId := "C1"; getName := "UK_Search_Generic";
     campaignStats := stats 100 8 20;
     campaignAudiences := [audience111; audience222];
     campaignAdGroups := [] |}.

Definition adGroupG1 : AdGroup :=
  {| adGroupId := "G1"; adGroupStats := stats 100 2 8;
     adGroupAudiences := [audience111] |}.

(** A campaign with ad-group-level audiences only. *)
Definition campaignC2 : Campaign :=
  {| campaignId := "C2"; getName := "DE_Search_Generic";
     campaignStats := stats 100 2 8;
     campaignAudiences := [];
     campaignAdGroups := [adGroupG1] |}.

(** A campaign whose only campaign-level audience is not in the mapping. *)
Definition campaignC3 : Campaign :=
  {| campaignId := "C3"; getName := "FR_Search_Generic";
     campaignStats := stats 100 2 8;
     campaignAudiences := [audience333];
     campaignAdGroups := [] |}.

(** A campaign the campaign report has no row for. *)
Definition campaignC9 : Campaign :=
  {| campaignId := "C9"; getName := "NL_Search_Generic";
     campaignStats := stats 100 8 20;
     campaignAudiences := [audience111];
     campaignAdGroups := [] |}.

Definition account : list Campaign := [campaignC1; campaignC2; campaignC3].

Definition audience222busy : Audience :=
  {| getAudienceId := "222"; audienceStats := stats 100 4 12 |}.

(** A campaign with two audiences that convert. *)
Definition campaignC5 : Campaign :=
  {| campaignId := "C5"; getName := "ES_Search_Generic";
     campaignStats := stats 100 9 22;
     campaignAudiences := [audience111; audience222busy];
     campaignAdGroups := [] |}.

(** The example of the comment above [CAMPAIGN_NAME_CONTAINS]. *)
Definition brandOrGeneric : Config :=
  {| DATE_RANGE := "LAST_7_DAYS";
     MINIMUM_IMPRESSIONS := 50;
     CAMPAIGN_NAME_DOES_NOT_CONTAIN := [];
     CAMPAIGN_NAME_CONTAINS := ["Brand"; "Generic"] |}.

Definition campaignBrand : Campaign :=
  {| campaignId := "C4"; getName := "Brand_UK";
     campaignStats := stats 100 8 20;
     campaignAudiences := [audience111];
     campaignAdGroups := [] |}.

Definition csv : list (list string) :=
  [ ["Criterion ID"; "Category"];
    ["111"; "Shoppers"];
    ["222"; "Researchers"];
    ["111"; "Buyers"] ].

Definition csvWithoutCategory : list (list string) :=
  [ ["Criterion ID"; "Name"];
    ["111"; "Shoppers"] ].

End Scenario.

(** ** The rest of the script: reports, logging and [main] *)

Definition AUDIENCE_MAPPING_CSV_DOWNLOAD_URL : string :=
  "https://docs.google.com/spreadsheets/d/e/2PACX-1vTRlOLrAYX4Sdw_qR5kdRpI1lyeXB0QXRtS0s0alHqEzNXxAeauuTshs1Z21S4Fk8xBNJrkR_ps5VlX/pub?gid=0&single=true&output=csv".

(** What the script runs against: the parsed download behind a URL, the rows
    a report query returns (each row an object of string fields), and the
    campaigns of the account. *)
Record World := {
  fetchCsv : string -> list (list string);
  reportRows : string -> list (gmap string string);
  campaigns : list Campaign;
}.

(** Everything [main] does that can be seen from outside. *)
Inductive effect :=
| Logger_log (message : string)
| UrlFetchApp_fetch (url : string)
| AdsApp_report (query : string)
| AdsApp_call (c : call).

(** A run of the script: what it did, and how it ended (an exception thrown
    and not caught, or a value). *)
Definition Job (A : Type) : Type := list effect * (exn + A).

#[export] Instance job_ret : MRet Job := fun A x => ([], inr x).

#[export] Instance job_bind : MBind Job :=
  fun A B f m =>
    match m with
    | (done1, inl e) => (done1, inl e)
    | (done1, inr a) => let '(done2, b) := f a in (done1 ++ done2, b)
    end.

Definition perform (e : effect) : Job unit := ([e], inr tt).

Definition throwing {A} (outcome : exn + A) : Job A := ([], outcome).

Definition onAccount {A} (m : Script A) : Job A :=
  (AdsApp_call <$> calls m, inr (result m)).

Definition effects {A} (j : Job A) : list effect := fst j.
Definition outcome {A} (j : Job A) : exn + A := snd j.

(** [String(n)] for an integer. *)
Definition String_ (n : Z) : string := NilZero.string_of_int (Z.to_int n).

(** The value of a report field read off a row. *)
Definition field (row : gmap string string) (name : string) : value :=
  match row !! name with
  | Some s => str s
  | None => undefined
  end.

Section Reports.

Context (world : World) (cfg : Config).

Definition getEntityPerformance (entityIdFieldName reportName : string)
  : Job (gmap string value) :=
  let query :=
    ("SELECT " ++ entityIdFieldName ++ ", CostPerAllConversion "
     ++ "FROM " ++ reportName ++ " "
     ++ "WHERE Impressions > " ++ String_ (MINIMUM_IMPRESSIONS cfg) ++ " "
     ++ "DURING " ++ DATE_RANGE cfg)%string in
  _ ← perform (AdsApp_report query);
  let rows := reportRows world query in
  mret (fold_left
          (fun performance row =>
             assign performance (propertyKey (row !! entityIdFieldName))
               (field row "CostPerAllConversion"))
          rows ∅).

Definition getCampaignPerformance : Job (gmap string value) :=
  getEntityPerformance "CampaignId" "CAMPAIGN_PERFORMANCE_REPORT".

Definition getAdGroupPerformance : Job (gmap string value) :=
  getEntityPerformance "AdGroupId" "ADGROUP_PERFORMANCE_REPORT".

(** [main].  The download that [getInMarketAudienceMapping] starts with is
    recorded here, the loader being modelled on the rows it parses.  Calls
    that the platform itself fails (a fetch, a report, a bid it refuses) are
    outside the model: every call is taken to return. *)
Definition main : Job unit :=
  _ ← perform (Logger_log "Getting audience mapping");
  _ ← perform (UrlFetchApp_fetch AUDIENCE_MAPPING_CSV_DOWNLOAD_URL);
  audienceMapping ←
    throwing (getInMarketAudienceMapping
                (fetchCsv world AUDIENCE_MAPPING_CSV_DOWNLOAD_URL));
  _ ← perform (Logger_log "Getting campaign performance");
  campaignPerformance ← getCampaignPerformance;
  _ ← perform (Logger_log "Getting ad group performance");
  adGroupPerformance ← getAdGroupPerformance;
  _ ← perform (Logger_log "Making operations");
  operations ←
    onAccount (makeAllOperations cfg (campaigns world) audienceMapping
                 campaignPerformance adGroupPerformance);
  _ ← perform (Logger_log "Applying bids");
  onAccount (applyBids operations).

End Reports.

(** The rows a report holds, read off the query-independent part of a world. *)
Definition performanceOf (entityIdFieldName : string)
  (rows : list (gmap string string)) : gmap string value :=
  fold_left
    (fun performance row =>
       assign performance (propertyKey (row !! entityIdFieldName))
         (field row "CostPerAllConversion"))
    rows ∅.

(** The query [getEntityPerformance] sends. *)
Definition reportQuery (cfg : Config) (entityIdFieldName reportName : string)
  : string :=
  ("SELECT " ++ entityIdFieldName ++ ", CostPerAllConversion "
   ++ "FROM " ++ reportName ++ " "
   ++ "WHERE Impressions > " ++ String_ (MINIMUM_IMPRESSIONS cfg) ++ " "
   ++ "DURING " ++ DATE_RANGE cfg)%string.

(** The call [applyBids] makes for one operation. *)
Definition bidWrite (operation : Operation) : call :=
  Bidding_setBidModifier (audience operation) (modifier operation).

(** The bid writes among the effects of a run, in order. *)
Definition bidWrites (done : list effect) : list (Audience * number) :=
  omap (fun e =>
          match e with
          | AdsApp_call (Bidding_setBidModifier a m) => Some (a, m)
          | _ => None
          end) done.

(** ** A world to run in *)

Module Sample.

Definition campaignRow (id cpa : string) : gmap string string :=
  <["CampaignId" := id]> (<["CostPerAllConversion" := cpa]> ∅).

Definition adGroupRow (id cpa : string) : gmap string string :=
  <["AdGroupId" := id]> (<["CostPerAllConversion" := cpa]> ∅).

Definition campaignQuery : string :=
  "SELECT CampaignId, CostPerAllConversion FROM CAMPAIGN_PERFORMANCE_REPORT WHERE Impressions > 50 DURING LAST_7_DAYS".

Definition adGroupQuery : string :=
  "SELECT AdGroupId, CostPerAllConversion FROM ADGROUP_PERFORMANCE_REPORT WHERE Impressions > 50 DURING LAST_7_DAYS".

Definition rows (query : string) : list (gmap string string) :=
  if String.eqb query campaignQuery
  then [campaignRow "C1" "9.99"; campaignRow "C3" "1.00"; campaignRow "C1" "2.50"]
  else if String.eqb query adGroupQuery
  then [adGroupRow "G1" "4"]
  else [].

Definition world : World :=
  {| fetchCsv := fun _ => Scenario.csv;
     reportRows := rows;
     campaigns := Scenario.account |}.

Definition worldWithoutCategory : World :=
  {| fetchCsv := fun _ => Scenario.csvWithoutCategory;
     reportRows := rows;
     campaigns := Scenario.account |}.

(** The scenario of the name filters in the specification. *)
Definition searchNotBrand : Config :=
  {| DATE_RANGE := "LAST_7_DAYS";
     MINIMUM_IMPRESSIONS := 50;
     CAMPAIGN_NAME_DOES_NOT_CONTAIN := ["Brand"];
     CAMPAIGN_NAME_CONTAINS := ["_Search_"] |}.

Definition campaignBrandSearch : Campaign :=
  {| campaignId := "C6"; getName := "Brand_Search_UK";
     campaignStats := Scenario.stats 100 8 20;
     campaignAudiences := [Scenario.audience111];
     campaignAdGroups := [] |}.

Definition unfiltered : Config :=
  {| DATE_RANGE := "LAST_7_DAYS";
     MINIMUM_IMPRESSIONS := 50;
     CAMPAIGN_NAME_DOES_NOT_CONTAIN := [];
     CAMPAIGN_NAME_CONTAINS := [] |}.

(** A campaign with exactly the minimum number of impressions. *)
Definition campaignAtThreshold : Campaign :=
  {| campaignId := "C7"; getName := "IT_Search_Generic";
     campaignStats := Scenario.stats 50 8 20;
     campaignAudiences := [Scenario.audience111];
     campaignAdGroups := [] |}.

(** An audience that converts at no cost. *)
Definition audienceFree : Audience :=
  {| getAudienceId := "111"; audienceStats := Scenario.stats 100 5 0 |}.

(** An audience below the impressions threshold, attached at campaign level
    to a campaign whose ad group has an audience above it. *)
Definition audienceQuiet : Audience :=
  {| getAudienceId := "222"; audienceStats := Scenario.stats 10 3 9 |}.

Definition campaignShadow : Campaign :=
  {| campaignId := "C8"; getName := "PT_Search_Generic";
     campaignStats := Scenario.stats 100 8 20;
     campaignAudiences := [audienceQuiet];
     campaignAdGroups := [Scenario.adGroupG1] |}.

(** An ad group with exactly the minimum number of impressions. *)
Definition adGroupAtThreshold : AdGroup :=
  {| adGroupId := "G2"; adGroupStats := Scenario.stats 50 2 8;
     adGroupAudiences := [Scenario.audience111] |}.

End Sample.

(** * Properties *)

(** ** Arrays and dictionaries *)

Section Arrays.

Context `{EqDecision A}.

Lemma indexOf_lower (array : list A) (x : A) : -1 <= indexOf array x.
Proof.
  induction array as [|y rest IH]; simpl; [lia|].
  destruct (decide (y = x)); [lia|].
  destruct (indexOf rest x =? -1) eqn:E; lia.
Qed.

Lemma indexOf_missing (array : list A) (x : A) :
  indexOf array x = -1 <-> x ∉ array.
Proof.
  induction array as [|y rest IH]; simpl.
  - split; [intros _; apply not_elem_of_nil | reflexivity].
  - rewrite not_elem_of_cons. destruct (decide (y = x)) as [->|Hne].
    + split; [lia | intros [? _]; congruence].
    + pose proof (indexOf_lower rest x).
      destruct (indexOf rest x =? -1) eqn:E.
      * apply Z.eqb_eq in E. split; [intros _|reflexivity].
        split; [congruence | by apply IH].
      * apply Z.eqb_neq in E. split; [lia|]. intros [_ Hn]. apply IH in Hn. lia.
Qed.

Lemma indexOf_found (array : list A) (x : A) :
  (indexOf array x >? -1) = true <-> x ∈ array.
Proof.
  pose proof (indexOf_lower array x). pose proof (indexOf_missing array x).
  destruct (decide (x ∈ array)) as [Hin|Hout].
  - split; [done|intros _]. apply Z.gtb_lt.
    destruct (Z.eq_dec (indexOf array x) (-1)); [|lia]. tauto.
  - split; [|done]. intros Hgt%Z.gtb_lt. apply H0 in Hout. lia.
Qed.

Lemma indexOf_present (array : list A) (x : A) :
  (indexOf array x =? -1) = false <-> x ∈ array.
Proof.
  pose proof (indexOf_missing array x).
  destruct (decide (x ∈ array)); rewrite Z.eqb_neq; tauto.
Qed.

End Arrays.

Lemma keys_dom {V} (object : gmap string V) (k : string) :
  k ∈ keys object <-> k ∈ dom object.
Proof.
  unfold keys. rewrite elem_of_dom, list_elem_of_fmap. split.
  - intros [[k' v] [-> Hin]]. apply elem_of_map_to_list in Hin. by exists v.
  - intros [v Hv]. exists (k, v). split; [done|]. by apply elem_of_map_to_list.
Qed.

(** Pushing the elements that pass a test is filtering. *)
Lemma push_if_filter {A} (test : A -> bool) (array start : list A) :
  fold_left (fun kept x => if test x then kept ++ [x] else kept) array start
  = start ++ filter (fun x => test x) array.
Proof.
  revert start. induction array as [|x rest IH]; intros start; simpl.
  - by rewrite app_nil_r.
  - rewrite IH, filter_cons. destruct (test x); simpl.
    + by rewrite <- app_assoc.
    + done.
Qed.

(** ** The log *)

(** A loop whose body logs [logged x] and appends [produced x], whatever was
    accumulated before. *)
Lemma whileHasNext_appending {A B} (iterator : list A)
    (body : A -> list B -> Script (list B))
    (logged : A -> list call) (produced : A -> list B) (start : list B) :
  (forall x acc, body x acc = (logged x, acc ++ produced x)) ->
  whileHasNext iterator body start
  = (concat (logged <$> iterator), start ++ concat (produced <$> iterator)).
Proof.
  intros Hbody. revert start. induction iterator as [|x rest IH]; intros start; simpl.
  - by rewrite app_nil_r.
  - rewrite Hbody. unfold mbind, script_bind. rewrite IH. by rewrite <- app_assoc.
Qed.

(** ** Selectors *)

Lemma elem_of_get {A} (s : Selector A) (a : A) :
  a ∈ get s <->
  a ∈ candidates s /\ forall c, c ∈ conditions s -> c (dateRange s) a = true.
Proof.
  unfold get. rewrite list_elem_of_filter, forallb_True, Forall_forall.
  split; intros [H1 H2]; split; try done.
  - intros c Hc. apply Is_true_true, (H1 c Hc).
  - intros c Hc. apply Is_true_true, (H2 c Hc).
Qed.

Lemma get_selector {A} (entities : list A) : get (selector entities) = entities.
Proof.
  unfold get, selector. simpl. induction entities as [|a rest IH]; [done|].
  rewrite filter_cons. simpl. by rewrite IH.
Qed.

Lemma withCondition_each {A P} (f : P -> condition A) (parts : list P)
    (s : Selector A) :
  fold_left (fun s part => withCondition s (f part)) parts s
  = {| candidates := candidates s; dateRange := dateRange s;
       conditions := conditions s ++ (f <$> parts) |}.
Proof.
  revert s. induction parts as [|p rest IH]; intros s; simpl.
  - rewrite app_nil_r. by destruct s.
  - rewrite IH. unfold withCondition. simpl. by rewrite <- app_assoc.
Qed.

Lemma get_impressions `{HasStats A} (cfg : Config) (entities : list A) (a : A) :
  a ∈ get (filterEntitiesBasedOnDateAndImpressions cfg (selector entities)) <->
  a ∈ entities /\ MINIMUM_IMPRESSIONS cfg < impressionsOf cfg a.
Proof.
  rewrite elem_of_get. simpl. split; intros [Hin Hc]; (split; [done|]).
  - apply Z.ltb_lt. apply (Hc (Impressions_GREATER_THAN (MINIMUM_IMPRESSIONS cfg))).
    apply list_elem_of_here.
  - intros c Hc'. apply list_elem_of_singleton in Hc' as ->.
    by apply Z.ltb_lt.
Qed.

Section NameFilter.

Context (cfg : Config).

Lemma filterCampaignsBasedOnName_conditions (s : Selector Campaign) :
  filterCampaignsBasedOnName cfg s
  = {| candidates := candidates s; dateRange := dateRange s;
       conditions :=
         conditions s
         ++ ((fun part => CampaignName_DOES_NOT_CONTAIN_IGNORE_CASE (escapeDoubleQuotes part))
               <$> CAMPAIGN_NAME_DOES_NOT_CONTAIN cfg)
         ++ ((fun part => CampaignName_CONTAINS_IGNORE_CASE (escapeDoubleQuotes part))
               <$> CAMPAIGN_NAME_CONTAINS cfg) |}.
Proof.
  unfold filterCampaignsBasedOnName. rewrite !withCondition_each. simpl.
  by rewrite <- app_assoc.
Qed.

(** The name filters select the campaigns whose name has none of the excluded
    parts and every one of the included parts. *)
Lemma filterCampaignsBasedOnName_selects (account : list Campaign) (c : Campaign) :
  c ∈ get (filterCampaignsBasedOnName cfg (selector account)) <->
  c ∈ account
  /\ (forall part, part ∈ CAMPAIGN_NAME_DOES_NOT_CONTAIN cfg ->
        nameContains (literalOf part) c = false)
  /\ (forall part, part ∈ CAMPAIGN_NAME_CONTAINS cfg ->
        nameContains (literalOf part) c = true).
Proof.
  rewrite filterCampaignsBasedOnName_conditions, elem_of_get. simpl.
  split.
  - intros [Hin Hall]. split; [done|]. split; intros part Hpart.
    + apply negb_true_iff.
      apply (Hall (CampaignName_DOES_NOT_CONTAIN_IGNORE_CASE (escapeDoubleQuotes part))).
      apply elem_of_app. left. apply list_elem_of_fmap. by exists part.
    + apply (Hall (CampaignName_CONTAINS_IGNORE_CASE (escapeDoubleQuotes part))).
      apply elem_of_app. right. apply list_elem_of_fmap. by exists part.
  - intros (Hin & Hex & Hinc). split; [done|]. intros cond Hcond.
    apply elem_of_app in Hcond as [Hc|Hc];
      apply list_elem_of_fmap in Hc as (part & -> & Hpart).
    + apply negb_true_iff. by apply Hex.
    + by apply Hinc.
Qed.

Lemma survivingCampaigns_selects (account : list Campaign) (c : Campaign) :
  c ∈ survivingCampaigns cfg account <->
  c ∈ get (filterCampaignsBasedOnName cfg (selector account))
  /\ MINIMUM_IMPRESSIONS cfg < impressionsOf cfg c.
Proof.
  unfold survivingCampaigns. rewrite !elem_of_get.
  rewrite !filterCampaignsBasedOnName_conditions. simpl.
  split.
  - intros [Hin Hall]. split; [split; [done|]|].
    + intros cond Hcond. clear Hin.
      apply elem_of_app in Hcond as [Hc|Hc];
        apply list_elem_of_fmap in Hc as (part & -> & Hpart).
      * apply (Hall (CampaignName_DOES_NOT_CONTAIN_IGNORE_CASE (escapeDoubleQuotes part))).
        rewrite !elem_of_app, !list_elem_of_fmap. left. left. by exists part.
      * apply (Hall (CampaignName_CONTAINS_IGNORE_CASE (escapeDoubleQuotes part))).
        rewrite !elem_of_app, !list_elem_of_fmap. left. right. by exists part.
    + apply Z.ltb_lt.
      apply (Hall (Impressions_GREATER_THAN (MINIMUM_IMPRESSIONS cfg))).
      rewrite elem_of_app, list_elem_of_singleton. by right.
  - intros [[Hin Hall] Himp]. split; [done|]. intros cond Hcond.
    apply elem_of_app in Hcond as [Hc|Hc].
    + pose proof (Hall cond Hc) as Hok.
      apply elem_of_app in Hc as [Hc|Hc];
        apply list_elem_of_fmap in Hc as (part & -> & Hpart); exact Hok.
    + apply list_elem_of_singleton in Hc as ->. by apply Z.ltb_lt.
Qed.

Lemma survivingCampaigns_account (account : list Campaign) (c : Campaign) :
  c ∈ survivingCampaigns cfg account -> c ∈ account.
Proof.
  intros H. apply survivingCampaigns_selects in H as [H _].
  by apply filterCampaignsBasedOnName_selects in H as [H _].
Qed.

End NameFilter.

(** Escaping the double quotes of a part and reading the literal back gives
    the part, when the part has no backslash of its own. *)
Lemma literalOf_plain (part : string) :
  backslash ∉ list_ascii_of_string part -> literalOf part = part.
Proof.
  unfold literalOf. induction part as [|c rest IH]; [done|].
  simpl. rewrite not_elem_of_cons. intros [Hc Hrest].
  destruct (Ascii.eqb c dquote) eqn:Eq.
  - simpl. rewrite IH by done. done.
  - simpl. destruct (Ascii.eqb c backslash) eqn:Eb.
    + apply Ascii.eqb_eq in Eb. congruence.
    + by rewrite IH.
Qed.

Lemma elem_of_concat {A} (x : A) (ls : list (list A)) :
  x ∈ concat ls <-> exists l, l ∈ ls /\ x ∈ l.
Proof.
  induction ls as [|l rest IH]; simpl.
  - split; [intros H; by apply elem_of_nil in H | intros (l & H & _); by apply elem_of_nil in H].
  - rewrite elem_of_app, IH. split.
    + intros [H|(l' & H1 & H2)].
      * exists l. split; [apply list_elem_of_here | done].
      * exists l'. split; [by apply list_elem_of_further | done].
    + intros (l' & H1 & H2). apply elem_of_cons in H1 as [->|H1]; [by left|].
      right. by exists l'.
Qed.

Lemma concat_singletons {A B} (f : A -> B) (l : list A) :
  concat ((fun x => [f x]) <$> l) = f <$> l.
Proof. induction l as [|x rest IH]; [done|]. csimpl. by rewrite IH. Qed.

(** ** Numbers *)

(** A number equal to zero is not greater than zero. *)
Lemma eq_zero_not_gt (x : number) : equals x zero = true -> gt x zero = false.
Proof. by destruct x as [[]|[]| |[] m e]. Qed.

Lemma parseFloat_undefined : parseFloat undefined = NaN.
Proof. reflexivity. Qed.

(** Coercing a number that [parseFloat] returned changes it only when it is
    the negative zero. *)
Lemma parseFloat_again (x : number) :
  x <> negzero -> parseFloat (num x) = x.
Proof. destruct x as [[]|[]| |[] m e]; simpl; done. Qed.

Lemma parseFloat_idempotent (x : number) :
  parseFloat (num (parseFloat (num x))) = parseFloat (num x).
Proof. by destruct x as [[]|[]| |[] m e]. Qed.

(** ** The modifier calculator *)

Section Calculator.

Context (cfg : Config).

Lemma keptAudiences_filter {V} (entity : Entity) (m : gmap string V) :
  keptAudiences cfg entity m
  = filter (fun a => isAudienceInMarketAudience a (keys m))
      (get (filterEntitiesBasedOnDateAndImpressions cfg
              (selector (targetingAudiences entity)))).
Proof.
  unfold keptAudiences, getAudiencesFromEntity, result. simpl.
  by rewrite push_if_filter.
Qed.

(** Which audiences of an entity reach [makeOperations]. *)
Lemma keptAudiences_spec {V} (entity : Entity) (m : gmap string V) (a : Audience) :
  a ∈ keptAudiences cfg entity m <->
  a ∈ targetingAudiences entity
  /\ MINIMUM_IMPRESSIONS cfg < impressionsOf cfg a
  /\ inMarket m a.
Proof.
  rewrite keptAudiences_filter, list_elem_of_filter, get_impressions.
  unfold isAudienceInMarketAudience, inMarket.
  rewrite Is_true_true, indexOf_found, keys_dom. tauto.
Qed.

Lemma makeOperationsFromEntity_unfold {V} (entity : Entity) (entityCpa : value)
    (m : gmap string V) :
  makeOperationsFromEntity cfg entity entityCpa m
  = ([Audiences_get entity], makeOperations cfg entityCpa (keptAudiences cfg entity m)).
Proof. reflexivity. Qed.

(** The loop of [makeOperations], started with some operations already
    pushed. *)
Lemma makeOperations_loop (audiences : list Audience) (entityCpa : value)
    (pushed : list Operation) :
  snd (fold_left
         (fun '(entityCpa, operations) audience =>
            let stats := getStatsFor audience (DATE_RANGE cfg) in
            let conversions := getConversions stats in
            if gt conversions zero then
              let audienceCpa := div (getCost stats) (getConversions stats) in
              let entityCpa := parseFloat entityCpa in
              let modifier := div entityCpa audienceCpa in
              (num entityCpa,
               operations ++ [{| audience := audience; modifier := modifier |}])
            else (entityCpa, operations))
         audiences (entityCpa, pushed))
  = pushed ++ makeOperations cfg entityCpa audiences.
Proof.
  unfold makeOperations.
  revert entityCpa pushed. induction audiences as [|a rest IH]; intros v pushed.
  - simpl. by rewrite app_nil_r.
  - simpl. destruct (gt (getConversions (getStatsFor a (DATE_RANGE cfg))) zero).
    + rewrite IH. rewrite (IH _ [_]). by rewrite <- app_assoc.
    + apply IH.
Qed.

Lemma makeOperations_nil (entityCpa : value) : makeOperations cfg entityCpa [] = [].
Proof. reflexivity. Qed.

Lemma makeOperations_cons (entityCpa : value) (a : Audience) (rest : list Audience) :
  makeOperations cfg entityCpa (a :: rest)
  = if hasConversions cfg a
    then operationFor cfg (parseFloat entityCpa) a
         :: makeOperations cfg (num (parseFloat entityCpa)) rest
    else makeOperations cfg entityCpa rest.
Proof.
  unfold makeOperations at 1. simpl.
  unfold hasConversions, conversionsOf.
  destruct (gt (getConversions (getStatsFor a (DATE_RANGE cfg))) zero).
  - by rewrite makeOperations_loop.
  - reflexivity.
Qed.

(** Once [entityCpa] holds a number whose coercion is itself, every operation
    uses that number. *)
Lemma makeOperations_settled (x : number) (audiences : list Audience) :
  parseFloat (num x) = x ->
  makeOperations cfg (num x) audiences
  = operationFor cfg x <$> filter (fun a => hasConversions cfg a) audiences.
Proof.
  intros Hx. induction audiences as [|a rest IH]; [done|].
  rewrite makeOperations_cons, filter_cons, Hx, IH.
  by destruct (hasConversions cfg a).
Qed.

(** Once [entityCpa] holds a number, every operation uses the coercion of
    that number. *)
Lemma makeOperations_number (x : number) (audiences : list Audience) :
  makeOperations cfg (num x) audiences
  = operationFor cfg (parseFloat (num x))
      <$> filter (fun a => hasConversions cfg a) audiences.
Proof.
  induction audiences as [|a rest IH]; [done|].
  rewrite makeOperations_cons, filter_cons, IH.
  rewrite (makeOperations_settled (parseFloat (num x)))
    by apply parseFloat_idempotent.
  by destruct (hasConversions cfg a).
Qed.

(** Every operation is for one of the audiences given, and that audience has
    conversions. *)
Lemma makeOperations_audience (entityCpa : value) (audiences : list Audience)
    (op : Operation) :
  op ∈ makeOperations cfg entityCpa audiences ->
  audience op ∈ audiences /\ hasConversions cfg (audience op) = true.
Proof.
  revert entityCpa. induction audiences as [|a rest IH]; intros v.
  - rewrite makeOperations_nil. intros H. by apply elem_of_nil in H.
  - rewrite makeOperations_cons. destruct (hasConversions cfg a) eqn:E.
    + intros [->|H]%elem_of_cons.
      * simpl. split; [apply list_elem_of_here | done].
      * apply IH in H as [H1 H2]. split; [by apply list_elem_of_further | done].
    + intros H. apply IH in H as [H1 H2]. split; [by apply list_elem_of_further | done].
Qed.

(** With no baseline, every audience with conversions still gets an
    operation, and its modifier is NaN. *)
Lemma makeOperations_undefined (audiences : list Audience) :
  makeOperations cfg undefined audiences
  = operationFor cfg NaN <$> filter (fun a => hasConversions cfg a) audiences.
Proof.
  induction audiences as [|a rest IH]; [done|].
  rewrite makeOperations_cons, filter_cons, IH, parseFloat_undefined.
  rewrite (makeOperations_settled NaN) by done.
  by destruct (hasConversions cfg a).
Qed.

(** The same for any baseline that does not read as a number. *)
Lemma makeOperations_unparsable (entityCpa : value) (audiences : list Audience) :
  parseFloat entityCpa = NaN ->
  makeOperations cfg entityCpa audiences
  = operationFor cfg NaN <$> filter (fun a => hasConversions cfg a) audiences.
Proof.
  intros Hnan. induction audiences as [|a rest IH]; [done|].
  rewrite makeOperations_cons, filter_cons, IH, Hnan.
  rewrite (makeOperations_settled NaN) by done.
  by destruct (hasConversions cfg a).
Qed.

End Calculator.

(** ** The main loop *)

Section MainLoop.

Context (cfg : Config) {V : Type}.
Context (account : list Campaign) (audienceMapping : gmap string V).
Context (campaignPerformance adGroupPerformance : gmap string value).

Lemma campaignHasAnyCampaignLevelAudiences_unfold (c : Campaign) :
  campaignHasAnyCampaignLevelAudiences c
  = ([CampaignAudiences_totalNumEntities c],
     totalNumEntities (get (selector (campaignAudiences c))) >? 0).
Proof. reflexivity. Qed.

(** The test the main loop branches on holds exactly when some audience, of
    any kind, is attached at campaign level. *)
Lemma campaign_level_test (c : Campaign) :
  (totalNumEntities (get (selector (campaignAudiences c))) >? 0) = true
  <-> campaignAudiences c <> [].
Proof.
  rewrite get_selector. unfold totalNumEntities.
  destruct (campaignAudiences c); simpl; split; intros H; done.
Qed.

Lemma makeAllOperations_unfold :
  makeAllOperations cfg account audienceMapping campaignPerformance adGroupPerformance
  = (Campaigns_get (survivingCampaigns cfg account)
       :: concat (campaignCalls cfg <$> survivingCampaigns cfg account),
     concat (campaignOperations cfg audienceMapping campaignPerformance
               adGroupPerformance <$> survivingCampaigns cfg account)).
Proof.
  unfold makeAllOperations. fold (survivingCampaigns cfg account).
  rewrite (whileHasNext_appending _ _ (campaignCalls cfg)
             (campaignOperations cfg audienceMapping campaignPerformance
                adGroupPerformance)); [done|].
  intros c acc. unfold campaignCalls, campaignOperations.
  rewrite campaignHasAnyCampaignLevelAudiences_unfold.
  unfold mbind at 1, script_bind at 1.
  destruct (totalNumEntities (get (selector (campaignAudiences c))) >? 0).
  - by rewrite makeOperationsFromEntity_unfold.
  - fold (survivingAdGroups cfg c).
    rewrite (whileHasNext_appending _ _ (fun g => [Audiences_get (OfAdGroup g)])
               (fun g => makeOperations cfg (property adGroupPerformance (adGroupId g))
                           (keptAudiences cfg (OfAdGroup g) audienceMapping))).
    + unfold mbind, script_bind, tell. simpl. by rewrite concat_singletons.
    + intros g acc'. by rewrite makeOperationsFromEntity_unfold.
Qed.

End MainLoop.

(** What the run visits. *)

Section Visits.

Context (cfg : Config) {V : Type}.
Context (account : list Campaign) (audienceMapping : gmap string V).
Context (campaignPerformance adGroupPerformance : gmap string value).

Let run : Script (list Operation) :=
  makeAllOperations cfg account audienceMapping campaignPerformance adGroupPerformance.

Lemma elem_of_run_calls (x : call) :
  x ∈ calls run <->
  x = Campaigns_get (survivingCampaigns cfg account)
  \/ exists c, c ∈ survivingCampaigns cfg account /\ x ∈ campaignCalls cfg c.
Proof.
  unfold run. rewrite makeAllOperations_unfold. unfold calls. simpl.
  rewrite elem_of_cons, elem_of_concat. split; (intros [H|H]; [by left|right]).
  - destruct H as (l & (c & -> & Hc)%list_elem_of_fmap & Hx). by exists c.
  - destruct H as (c & Hc & Hx). exists (campaignCalls cfg c).
    split; [|done]. apply list_elem_of_fmap. by exists c.
Qed.

Lemma elem_of_run_result (op : Operation) :
  op ∈ result run <->
  exists c, c ∈ survivingCampaigns cfg account
            /\ op ∈ campaignOperations cfg audienceMapping campaignPerformance
                      adGroupPerformance c.
Proof.
  unfold run. rewrite makeAllOperations_unfold. unfold result. simpl.
  rewrite elem_of_concat. split.
  - intros (l & (c & -> & Hc)%list_elem_of_fmap & Hx). by exists c.
  - intros (c & Hc & Hx). eexists. split; [|exact Hx].
    apply list_elem_of_fmap. by exists c.
Qed.

(** The campaign's own audiences are fetched exactly for the surviving
    campaigns that have an audience attached at campaign level. *)
Lemma visits_campaign_level (c : Campaign) :
  Audiences_get (OfCampaign c) ∈ calls run <->
  c ∈ survivingCampaigns cfg account /\ campaignAudiences c <> [].
Proof.
  rewrite elem_of_run_calls. split.
  - intros [H|(c' & Hc' & Hx)]; [done|]. unfold campaignCalls in Hx.
    apply elem_of_cons in Hx as [Hx|Hx]; [done|].
    destruct (totalNumEntities (get (selector (campaignAudiences c'))) >? 0) eqn:E.
    + apply list_elem_of_singleton in Hx. injection Hx as ->.
      split; [done|]. by apply campaign_level_test.
    + apply elem_of_cons in Hx as [Hx|Hx]; [done|].
      by apply list_elem_of_fmap in Hx as (g & Hg & _).
  - intros [Hc Hany]. right. exists c. split; [done|]. unfold campaignCalls.
    apply campaign_level_test in Hany. rewrite Hany.
    apply list_elem_of_further, list_elem_of_here.
Qed.

(** The campaign's ad groups are enumerated exactly for the surviving
    campaigns that have no audience attached at campaign level. *)
Lemma visits_adGroups (c : Campaign) :
  AdGroups_get c ∈ calls run <->
  c ∈ survivingCampaigns cfg account /\ campaignAudiences c = [].
Proof.
  rewrite elem_of_run_calls. split.
  - intros [H|(c' & Hc' & Hx)]; [done|]. unfold campaignCalls in Hx.
    apply elem_of_cons in Hx as [Hx|Hx]; [done|].
    destruct (totalNumEntities (get (selector (campaignAudiences c'))) >? 0) eqn:E.
    + by apply list_elem_of_singleton in Hx.
    + apply elem_of_cons in Hx as [Hx|Hx].
      * injection Hx as ->. split; [done|].
        destruct (campaignAudiences c') eqn:Ea; [done|].
        assert (campaignAudiences c' <> []) as Hne by (by rewrite Ea).
        apply campaign_level_test in Hne. congruence.
      * by apply list_elem_of_fmap in Hx as (g & Hg & _).
  - intros [Hc Hnone]. right. exists c. split; [done|]. unfold campaignCalls.
    rewrite Hnone. simpl. apply list_elem_of_further, list_elem_of_here.
Qed.

(** The ad groups whose audiences are fetched after that enumeration. *)
Lemma visits_adGroup_level (c : Campaign) (g : AdGroup) :
  c ∈ survivingCampaigns cfg account -> campaignAudiences c = [] ->
  g ∈ survivingAdGroups cfg c ->
  Audiences_get (OfAdGroup g) ∈ calls run.
Proof.
  intros Hc Hnone Hg. apply elem_of_run_calls. right. exists c. split; [done|].
  unfold campaignCalls. rewrite Hnone. simpl.
  do 2 apply list_elem_of_further.
  apply list_elem_of_fmap. by exists g.
Qed.

(** Every operation of a run is for an audience that was kept for some
    entity and has conversions. *)
Lemma run_operation_origin (op : Operation) :
  op ∈ result run ->
  hasConversions cfg (audience op) = true
  /\ exists entity, audience op ∈ keptAudiences cfg entity audienceMapping.
Proof.
  intros (c & Hc & Hop)%elem_of_run_result. unfold campaignOperations in Hop.
  destruct (totalNumEntities (get (selector (campaignAudiences c))) >? 0).
  - apply makeOperations_audience in Hop as [H1 H2]. split; [done|].
    by exists (OfCampaign c).
  - apply elem_of_concat in Hop as (l & (g & -> & Hg)%list_elem_of_fmap & Hop).
    apply makeOperations_audience in Hop as [H1 H2]. split; [done|].
    by exists (OfAdGroup g).
Qed.

End Visits.

(** * The claims *)

(** The scenario of the specification: mapping 111 and 222, campaign C1 with
    baseline 2.50 and audience 111 at cost 10 for 5 conversions; the one
    operation has modifier 2.50 / (10 / 5) = 1.25 (audience 222, without
    conversions, gets none). *)
Example scenario_single_operation :
  result (makeAllOperations shipped [Scenario.campaignC1] Scenario.mapping
            Scenario.campaignPerformance Scenario.adGroupPerformance)
  = [ {| audience := Scenario.audience111; modifier := ofDecimal false 125 (-2) |} ].
Proof. vm_compute. reflexivity. Qed.

(** A campaign without campaign-level audiences is handled through its ad
    groups, against the ad group baseline: 4 / (10 / 5) = 2. *)
Example scenario_adGroup_level :
  makeAllOperations shipped [Scenario.campaignC2] Scenario.mapping
    Scenario.campaignPerformance Scenario.adGroupPerformance
  = ([Campaigns_get [Scenario.campaignC2];
      CampaignAudiences_totalNumEntities Scenario.campaignC2;
      AdGroups_get Scenario.campaignC2;
      Audiences_get (OfAdGroup Scenario.adGroupG1)],
     [ {| audience := Scenario.audience111; modifier := ofZ 2 |} ]).
Proof. vm_compute. reflexivity. Qed.

(** C1 (the script does otherwise).  The claim: for an entity whose id is
    absent from the performance map, no operation is produced.  The script
    looks the id up, gets [undefined], and goes on: for campaign C9, which the
    campaign performance map has no entry for, the run produces an operation
    for its audience 111, the modifier of that operation is NaN, and
    [applyBids] writes it. *)
Theorem absent_baseline_emits_NaN_operation :
  let operations :=
    result (makeAllOperations shipped [Scenario.campaignC9] Scenario.mapping
              Scenario.campaignPerformance Scenario.adGroupPerformance) in
  Scenario.campaignPerformance !! campaignId Scenario.campaignC9 = None
  /\ operations = [ {| audience := Scenario.audience111; modifier := NaN |} ]
  /\ calls (applyBids operations) = [ Bidding_setBidModifier Scenario.audience111 NaN ].
Proof. repeat split; vm_compute; reflexivity. Qed.

(** The same in general: a campaign-level entity without an entry gets one
    operation for each kept audience with conversions, all with modifier
    NaN. *)
Lemma absent_baseline_operations (cfg : Config) {V} (m : gmap string V)
    (campaignPerformance adGroupPerformance : gmap string value) (c : Campaign) :
  campaignPerformance !! campaignId c = None ->
  campaignAudiences c <> [] ->
  campaignOperations cfg m campaignPerformance adGroupPerformance c
  = operationFor cfg NaN
      <$> filter (fun a => hasConversions cfg a) (keptAudiences cfg (OfCampaign c) m).
Proof.
  intros Hnone Hany. unfold campaignOperations, property.
  apply campaign_level_test in Hany. rewrite Hany, Hnone.
  apply makeOperations_unparsable. by destruct (decide _).
Qed.

(** C2 (the script does otherwise).  The claim, and the comment above
    [CAMPAIGN_NAME_CONTAINS]: with the parts Brand and Generic, a campaign
    with either in its name is looked at.  The script adds one condition per
    part and the selector keeps what meets all of them: the campaign named
    Brand_UK contains Brand, and is not selected. *)
Theorem contains_filter_requires_every_part :
  nameContains "Brand" Scenario.campaignBrand = true
  /\ CAMPAIGN_NAME_CONTAINS Scenario.brandOrGeneric = ["Brand"; "Generic"]
  /\ get (filterCampaignsBasedOnName Scenario.brandOrGeneric
            (selector [Scenario.campaignBrand])) = [].
Proof. repeat split; vm_compute; reflexivity. Qed.

(** C3.  An audience whose conversions over the configured date range equal
    zero gets no operation in a run, whatever its cost, the entity it is
    attached to, and the baselines. *)
Theorem zero_conversions_no_operation (cfg : Config) {V} (account : list Campaign)
    (audienceMapping : gmap string V)
    (campaignPerformance adGroupPerformance : gmap string value) (a : Audience) :
  equals (conversionsOf cfg a) zero = true ->
  forall op,
    op ∈ result (makeAllOperations cfg account audienceMapping
                   campaignPerformance adGroupPerformance) ->
    audience op <> a.
Proof.
  intros Hzero op Hop Ha. subst a.
  apply run_operation_origin in Hop as [Hconv _].
  unfold hasConversions in Hconv.
  apply eq_zero_not_gt in Hzero. congruence.
Qed.

Lemma zero_conversions_no_operation_witness :
  equals (conversionsOf shipped Scenario.audience222) zero = true
  /\ forall op,
       op ∈ result (makeAllOperations shipped Scenario.account Scenario.mapping
                      Scenario.campaignPerformance Scenario.adGroupPerformance) ->
       audience op <> Scenario.audience222.
Proof.
  split; [reflexivity|].
  apply (zero_conversions_no_operation shipped Scenario.account Scenario.mapping
           Scenario.campaignPerformance Scenario.adGroupPerformance
           Scenario.audience222).
  reflexivity.
Defined.

(** The numerator through the loop of [makeOperations]: the coercion of the
    baseline for the first operation, and that number coerced again for the
    later ones. *)
Lemma makeOperations_shape (cfg : Config) (baseline : value)
    (audiences : list Audience) :
  makeOperations cfg baseline audiences
  = match filter (fun a => hasConversions cfg a) audiences with
    | [] => []
    | first :: later =>
        operationFor cfg (parseFloat baseline) first
        :: (operationFor cfg (parseFloat (num (parseFloat baseline))) <$> later)
    end.
Proof.
  induction audiences as [|a rest IH]; [done|].
  rewrite makeOperations_cons, filter_cons.
  destruct (hasConversions cfg a); [|exact IH].
  simpl. f_equal. apply makeOperations_number.
Qed.

(** Coercing the numerator again changes no quotient as a number: at most
    the sign of a zero. *)
Lemma div_recoerced (x y : number) :
  sameNumber (div (parseFloat (num x)) y) (div x y).
Proof.
  destruct x as [[]|[]| |[] m e]; try (by left).
  destruct y as [[]|[]| |[] m e]; (by left) || (by right).
Qed.

Lemma operations_recoerced (cfg : Config) (x : number) (audiences : list Audience) :
  Forall2
    (fun op a =>
       audience op = a
       /\ sameNumber (modifier op)
            (modifierFormula x (costOf cfg a) (conversionsOf cfg a)))
    (operationFor cfg (parseFloat (num x)) <$> audiences) audiences.
Proof.
  induction audiences as [|a rest IH]; [constructor|].
  csimpl. constructor; [|exact IH].
  split; [done|]. apply div_recoerced.
Qed.

(** The one baseline for which the numerator changes within an entity: the
    string -0 reads as the negative zero, and that number coerced again is the
    positive zero, so the second modifier has the other sign of zero than the
    first would give.  The two are the same number. *)
Lemma negative_zero_baseline_recoerced :
  result (makeOperationsFromEntity shipped (OfCampaign Scenario.campaignC5)
            (str "-0") Scenario.mapping)
  <> operationFor shipped (parseFloat (str "-0"))
       <$> filter (fun a => hasConversions shipped a)
             (keptAudiences shipped (OfCampaign Scenario.campaignC5) Scenario.mapping).
Proof.
  intros H. apply (f_equal (fmap modifier)) in H.
  vm_compute in H. discriminate H.
Qed.

(** C4.  For an entity with baseline value [baseline] (a string, a number, or
    missing), the operations are one per kept audience with conversions, in
    order, and the modifier of each is the number
    [parseFloat baseline / (cost / conversions)]: the operations are exactly
    the ones the formula gives whenever [parseFloat baseline] is not the
    negative zero, and for that one baseline each modifier is still the same
    number as the formula's (a zero, of either sign).  The result is a
    function of these inputs alone. *)
Theorem modifier_formula (cfg : Config) {V} (entity : Entity) (baseline : value)
    (audienceMapping : gmap string V) :
  let converting :=
    filter (fun a => hasConversions cfg a) (keptAudiences cfg entity audienceMapping) in
  let operations :=
    result (makeOperationsFromEntity cfg entity baseline audienceMapping) in
  Forall2
    (fun op a =>
       audience op = a
       /\ sameNumber (modifier op)
            (modifierFormula (parseFloat baseline) (costOf cfg a) (conversionsOf cfg a)))
    operations converting
  /\ (parseFloat baseline <> negzero ->
      operations = operationFor cfg (parseFloat baseline) <$> converting).
Proof.
  intros converting operations.
  assert (operations
          = match converting with
            | [] => []
            | first :: later =>
                operationFor cfg (parseFloat baseline) first
                :: (operationFor cfg (parseFloat (num (parseFloat baseline))) <$> later)
            end) as Hops.
  { subst operations converting. rewrite makeOperationsFromEntity_unfold.
    apply makeOperations_shape. }
  split.
  - rewrite Hops. destruct converting as [|first later]; [constructor|].
    constructor; [split; [done|by left]|]. apply operations_recoerced.
  - intros Hnz. rewrite Hops, (parseFloat_again _ Hnz). by destruct converting.
Qed.

(** C5 (as stated it fails).  The claim: a surviving campaign is handled at
    campaign level exactly when an in-market audience is attached to it at
    campaign level.  The script counts the campaign-level audiences of any
    kind: campaign C3 has one audience, 333, which the mapping does not list,
    and the run fetches the audiences of C3 itself and never enumerates its ad
    groups. *)
Lemma campaign_level_without_inMarket_audience :
  let run := makeAllOperations shipped Scenario.account Scenario.mapping
               Scenario.campaignPerformance Scenario.adGroupPerformance in
  Scenario.campaignC3 ∈ survivingCampaigns shipped Scenario.account
  /\ Audiences_get (OfCampaign Scenario.campaignC3) ∈ calls run
  /\ (AdGroups_get Scenario.campaignC3 ∉ calls run)
  /\ ~ (exists a, a ∈ campaignAudiences Scenario.campaignC3
                  /\ inMarket Scenario.mapping a).
Proof.
  assert (Scenario.campaignC3 ∈ survivingCampaigns shipped Scenario.account) as Hin.
  { vm_compute. do 2 apply list_elem_of_further. apply list_elem_of_here. }
  split; [exact Hin|]. split; [|split].
  - apply visits_campaign_level. split; [exact Hin | discriminate].
  - intros [_ Hnone]%visits_adGroups. discriminate Hnone.
  - intros (a & Ha & Hm). apply list_elem_of_singleton in Ha as ->.
    unfold inMarket in Hm. apply elem_of_dom in Hm as [v Hv].
    vm_compute in Hv. discriminate Hv.
Qed.

(** C5, amended.  A surviving campaign is handled at campaign level exactly
    when it has one or more audiences attached at campaign level, recognised
    by the mapping or not: then its own audiences are fetched, and its
    operations are made from them against the campaign performance entry of
    its id.  Exactly otherwise its ad groups are enumerated, the audiences of
    each ad group that passes the date and impressions filter are fetched, and
    the operations are made from them against the ad group performance entry
    of the ad group's id.  The operations of the run are these, campaign by
    campaign. *)
Theorem scope_by_campaign_level_audiences (cfg : Config) {V}
    (account : list Campaign) (audienceMapping : gmap string V)
    (campaignPerformance adGroupPerformance : gmap string value) (c : Campaign) :
  c ∈ survivingCampaigns cfg account ->
  let run := makeAllOperations cfg account audienceMapping
               campaignPerformance adGroupPerformance in
  (Audiences_get (OfCampaign c) ∈ calls run <-> campaignAudiences c <> [])
  /\ (AdGroups_get c ∈ calls run <-> campaignAudiences c = [])
  /\ (campaignAudiences c = [] ->
      forall g, g ∈ survivingAdGroups cfg c -> Audiences_get (OfAdGroup g) ∈ calls run)
  /\ result run
     = concat
         ((fun campaign =>
             if decide (campaignAudiences campaign = [])
             then operationsAtAdGroupLevel cfg audienceMapping adGroupPerformance campaign
             else operationsAtCampaignLevel cfg audienceMapping campaignPerformance campaign)
            <$> survivingCampaigns cfg account).
Proof.
  intros Hc run. subst run. split; [|split; [|split]].
  - rewrite visits_campaign_level. tauto.
  - rewrite visits_adGroups. tauto.
  - intros Hnone g Hg. by apply (visits_adGroup_level cfg account _ _ _ c g).
  - rewrite makeAllOperations_unfold. unfold result. simpl. f_equal.
    apply list_fmap_ext. intros _ c' _. unfold campaignOperations.
    destruct (decide (campaignAudiences c' = [])) as [Hnone|Hany].
    + rewrite Hnone. reflexivity.
    + apply campaign_level_test in Hany. rewrite Hany. reflexivity.
Qed.

Lemma scope_by_campaign_level_audiences_witness :
  let run := makeAllOperations shipped Scenario.account Scenario.mapping
               Scenario.campaignPerformance Scenario.adGroupPerformance in
  Scenario.campaignC2 ∈ survivingCampaigns shipped Scenario.account
  /\ (Audiences_get (OfCampaign Scenario.campaignC2) ∈ calls run
      <-> campaignAudiences Scenario.campaignC2 <> [])
  /\ (AdGroups_get Scenario.campaignC2 ∈ calls run
      <-> campaignAudiences Scenario.campaignC2 = [])
  /\ (campaignAudiences Scenario.campaignC2 = [] ->
      forall g, g ∈ survivingAdGroups shipped Scenario.campaignC2 ->
                Audiences_get (OfAdGroup g) ∈ calls run)
  /\ result run
     = concat
         ((fun campaign =>
             if decide (campaignAudiences campaign = [])
             then operationsAtAdGroupLevel shipped Scenario.mapping
                    Scenario.adGroupPerformance campaign
             else operationsAtCampaignLevel shipped Scenario.mapping
                    Scenario.campaignPerformance campaign)
            <$> survivingCampaigns shipped Scenario.account).
Proof.
  assert (Scenario.campaignC2 ∈ survivingCampaigns shipped Scenario.account) as Hin.
  { vm_compute. apply list_elem_of_further, list_elem_of_here. }
  split; [exact Hin|].
  exact (scope_by_campaign_level_audiences shipped Scenario.account Scenario.mapping
           Scenario.campaignPerformance Scenario.adGroupPerformance
           Scenario.campaignC2 Hin).
Defined.

(** C6.  For a campaign with at least one audience attached at campaign
    level, the run never enumerates that campaign's ad groups. *)
Theorem campaign_level_excludes_adGroups (cfg : Config) {V}
    (account : list Campaign) (audienceMapping : gmap string V)
    (campaignPerformance adGroupPerformance : gmap string value) (c : Campaign) :
  campaignAudiences c <> [] ->
  AdGroups_get c ∉ calls (makeAllOperations cfg account audienceMapping
                            campaignPerformance adGroupPerformance).
Proof.
  intros Hany [_ Hnone]%visits_adGroups. contradiction.
Qed.

Lemma campaign_level_excludes_adGroups_witness :
  campaignAudiences Scenario.campaignC1 <> []
  /\ AdGroups_get Scenario.campaignC1
     ∉ calls (makeAllOperations shipped Scenario.account Scenario.mapping
                Scenario.campaignPerformance Scenario.adGroupPerformance).
Proof.
  assert (campaignAudiences Scenario.campaignC1 <> []) as Hany by discriminate.
  split; [exact Hany|].
  exact (campaign_level_excludes_adGroups shipped Scenario.account Scenario.mapping
           Scenario.campaignPerformance Scenario.adGroupPerformance
           Scenario.campaignC1 Hany).
Defined.

(** ** The mapping loader *)

Section Loader.

Context {R V : Type} (key : R -> string) (val : R -> V).

Let load (rows : list R) (start : gmap string V) : gmap string V :=
  fold_left (fun mapping row => assign mapping (key row) (val row)) rows start.

Lemma load_dom (rows : list R) (start : gmap string V) :
  dom (load rows start)
  = dom start ∪ list_to_set (filter (fun k => k <> "__proto__") (key <$> rows)).
Proof.
  unfold load. revert start. induction rows as [|row rest IH]; intros start.
  - simpl. by rewrite union_empty_r_L.
  - rewrite fmap_cons, filter_cons. cbn [fold_left]. rewrite IH. unfold assign.
    destruct (decide (key row = "__proto__")) as [Hp|Hp].
    + by destruct (decide (key row <> "__proto__")).
    + destruct (decide (key row <> "__proto__")); [|done].
      rewrite dom_insert_L. apply set_eq. intros k.
      rewrite !elem_of_union, !elem_of_list_to_set, elem_of_cons, elem_of_singleton.
      tauto.
Qed.

Lemma load_untouched (rows : list R) (start : gmap string V) (k : string) :
  (forall row, row ∈ rows -> key row <> k) ->
  load rows start !! k = start !! k.
Proof.
  unfold load. revert start. induction rows as [|row rest IH]; intros start Hk; simpl.
  - done.
  - rewrite IH.
    + unfold assign. destruct (decide (key row = "__proto__")); [done|].
      apply lookup_insert_ne, Hk, list_elem_of_here.
    + intros r Hr. by apply Hk, list_elem_of_further.
Qed.

Lemma load_last (before after : list R) (row : R) (start : gmap string V) :
  key row <> "__proto__" ->
  (forall later, later ∈ after -> key later <> key row) ->
  load (before ++ row :: after) start !! key row = Some (val row).
Proof.
  intros Hp Hafter. unfold load. rewrite fold_left_app. simpl.
  fold (load before start).
  fold (load after (assign (load before start) (key row) (val row))).
  rewrite load_untouched by done. unfold assign.
  destruct (decide (key row = "__proto__")); [done|]. apply lookup_insert_eq.
Qed.

(** Nothing is ever stored under [__proto__]. *)
Lemma load_proto (rows : list R) (start : gmap string V) :
  load rows start !! "__proto__" = start !! "__proto__".
Proof.
  unfold load. revert start. induction rows as [|row rest IH]; intros start; simpl.
  - done.
  - rewrite IH. unfold assign.
    destruct (decide (key row = "__proto__")) as [Hp|Hp]; [done|].
    by apply lookup_insert_ne.
Qed.

End Loader.

Lemma getInMarketAudienceMapping_rows (headers : list string)
    (rows : list (list string)) (mapping : gmap string (option string)) :
  getInMarketAudienceMapping (headers :: rows) = inr mapping ->
  mapping = fold_left
              (fun mapping row =>
                 assign mapping (criterionIdOf headers row) (categoryOf headers row))
              rows ∅.
Proof.
  unfold getInMarketAudienceMapping.
  destruct ((indexOf headers "Criterion ID" =? -1) || (indexOf headers "Category" =? -1));
    [discriminate|].
  intros H. by injection H as <-.
Qed.

(** The keys of a loaded mapping, in general: what the rows are filed under,
    but for [__proto__]. *)
Lemma getInMarketAudienceMapping_dom (headers : list string)
    (rows : list (list string)) (mapping : gmap string (option string)) (id : string) :
  getInMarketAudienceMapping (headers :: rows) = inr mapping ->
  id ∈ dom mapping <->
  id <> "__proto__" /\ exists row, row ∈ rows /\ criterionIdOf headers row = id.
Proof.
  intros Hload. apply getInMarketAudienceMapping_rows in Hload.
  rewrite Hload, (load_dom (criterionIdOf headers) (categoryOf headers)).
  rewrite dom_empty_L, union_empty_l_L, elem_of_list_to_set, list_elem_of_filter,
    list_elem_of_fmap.
  split; intros [Hp (row & H1 & H2)]; (split; [done|]); exists row; by split.
Qed.

(** C7.  When the header row lacks a cell that is exactly Criterion ID or one
    that is exactly Category, the loader throws the error about the expected
    headers and returns no mapping; when the header row has both, it returns a
    mapping. *)
Theorem loader_checks_headers (headers : list string) (rows : list (list string)) :
  ("Criterion ID" ∉ headers \/ "Category" ∉ headers ->
   getInMarketAudienceMapping (headers :: rows)
   = inl (Error "The audience CSV does not have the expected headers"))
  /\ ("Criterion ID" ∈ headers /\ "Category" ∈ headers ->
      exists mapping, getInMarketAudienceMapping (headers :: rows) = inr mapping).
Proof.
  unfold getInMarketAudienceMapping. split.
  - intros [H|H]; apply indexOf_missing in H; rewrite H; simpl; [done|].
    by rewrite orb_true_r.
  - intros [H1 H2]. apply indexOf_present in H1, H2. rewrite H1, H2. simpl.
    by eexists.
Qed.



(** C9.  Of the audiences attached to an entity, those that reach the
    modifier computation are the ones that pass the date and impressions
    filter and whose id is a key of the mapping; an audience whose id is not a
    key is left out, with no error (the functions are total), and no
    operation is ever emitted for it, for the entity or in a whole run. *)
Theorem only_mapped_audiences_kept (cfg : Config) {V} (entity : Entity)
    (audienceMapping : gmap string V) :
  (forall a,
     a ∈ result (getAudiencesFromEntity cfg entity audienceMapping) <->
     a ∈ targetingAudiences entity
     /\ MINIMUM_IMPRESSIONS cfg < impressionsOf cfg a
     /\ getAudienceId a ∈ dom audienceMapping)
  /\ (forall entityCpa op,
        op ∈ result (makeOperationsFromEntity cfg entity entityCpa audienceMapping) ->
        getAudienceId (audience op) ∈ dom audienceMapping)
  /\ (forall account campaignPerformance adGroupPerformance op,
        op ∈ result (makeAllOperations cfg account audienceMapping
                       campaignPerformance adGroupPerformance) ->
        getAudienceId (audience op) ∈ dom audienceMapping).
Proof.
  split; [|split].
  - intros a. apply keptAudiences_spec.
  - intros entityCpa op. rewrite makeOperationsFromEntity_unfold. unfold result. simpl.
    intros [Hkept _]%makeOperations_audience.
    by apply keptAudiences_spec in Hkept as (_ & _ & Hm).
  - intros account cp ap op (_ & e & Hkept)%run_operation_origin.
    by apply keptAudiences_spec in Hkept as (_ & _ & Hm).
Qed.

Lemma keptAudiences_keys (cfg : Config) {V1 V2} (entity : Entity)
    (m1 : gmap string V1) (m2 : gmap string V2) :
  dom m1 = dom m2 -> keptAudiences cfg entity m1 = keptAudiences cfg entity m2.
Proof.
  intros Hdom. rewrite !keptAudiences_filter. apply list_filter_iff.
  intros a. unfold isAudienceInMarketAudience.
  rewrite !Is_true_true, !indexOf_found, !keys_dom. by rewrite Hdom.
Qed.

(** C10.  Two mappings with the same keys, whatever their category labels,
    give the same run: the same operations (audience and modifier, in the same
    order) and the same visits. *)
Theorem operations_depend_on_keys_only (cfg : Config) {V1 V2}
    (account : list Campaign) (m1 : gmap string V1) (m2 : gmap string V2)
    (campaignPerformance adGroupPerformance : gmap string value) :
  dom m1 = dom m2 ->
  makeAllOperations cfg account m1 campaignPerformance adGroupPerformance
  = makeAllOperations cfg account m2 campaignPerformance adGroupPerformance.
Proof.
  intros Hdom. rewrite !makeAllOperations_unfold. f_equal. f_equal.
  apply list_fmap_ext. intros _ c _. unfold campaignOperations.
  rewrite (keptAudiences_keys cfg (OfCampaign c) m1 m2 Hdom).
  destruct (totalNumEntities (get (selector (campaignAudiences c))) >? 0); [done|].
  f_equal. apply list_fmap_ext. intros _ g _.
  by rewrite (keptAudiences_keys cfg (OfAdGroup g) m1 m2 Hdom).
Qed.

Lemma operations_depend_on_keys_only_witness :
  dom Scenario.mapping = dom Scenario.relabelled
  /\ Scenario.mapping <> Scenario.relabelled
  /\ makeAllOperations shipped Scenario.account Scenario.mapping
       Scenario.campaignPerformance Scenario.adGroupPerformance
     = makeAllOperations shipped Scenario.account Scenario.relabelled
         Scenario.campaignPerformance Scenario.adGroupPerformance.
Proof.
  assert (dom Scenario.mapping = dom Scenario.relabelled) as Hdom
    by (vm_compute; reflexivity).
  split; [exact Hdom|]. split.
  - intros H. apply (f_equal (fun m => m !! "111")) in H.
    vm_compute in H. discriminate H.
  - exact (operations_depend_on_keys_only shipped Scenario.account
             Scenario.mapping Scenario.relabelled
             Scenario.campaignPerformance Scenario.adGroupPerformance Hdom).
Defined.

(** * Further properties of the script *)

(** ** Name filters *)

Lemma literalOf_plain_parts (parts : list string) (part : string) :
  Forall (fun p => backslash ∉ list_ascii_of_string p) parts ->
  part ∈ parts -> literalOf part = part.
Proof.
  intros Hplain Hin. apply literalOf_plain.
  by apply (proj1 (Forall_forall _ _) Hplain).
Qed.

(** X1.  With plain parts (no backslash and no quote of either kind in
    them, so that each goes into its condition and is read back as it is), the
    name filters select exactly the campaigns of the account whose name,
    ignoring case, contains none of the parts of
    [CAMPAIGN_NAME_DOES_NOT_CONTAIN] and every part of
    [CAMPAIGN_NAME_CONTAINS]. *)
Theorem name_filters_select (cfg : Config) (account : list Campaign) (c : Campaign) :
  Forall plainPart
    (CAMPAIGN_NAME_DOES_NOT_CONTAIN cfg ++ CAMPAIGN_NAME_CONTAINS cfg) ->
  c ∈ get (filterCampaignsBasedOnName cfg (selector account)) <->
  c ∈ account
  /\ (forall part, part ∈ CAMPAIGN_NAME_DOES_NOT_CONTAIN cfg -> nameContains part c = false)
  /\ (forall part, part ∈ CAMPAIGN_NAME_CONTAINS cfg -> nameContains part c = true).
Proof.
  intros Hplain.
  assert (Forall (fun p => backslash ∉ list_ascii_of_string p)
            (CAMPAIGN_NAME_DOES_NOT_CONTAIN cfg ++ CAMPAIGN_NAME_CONTAINS cfg)) as Hb.
  { eapply Forall_impl; [exact Hplain|]. by intros p (Hp & _ & _). }
  apply Forall_app in Hb as [Hex Hinc].
  rewrite filterCampaignsBasedOnName_selects.
  split; intros (Hin & H1 & H2); (split; [done|]); split; intros part Hpart.
  - rewrite <- (literalOf_plain_parts _ part Hex Hpart). by apply H1.
  - rewrite <- (literalOf_plain_parts _ part Hinc Hpart). by apply H2.
  - rewrite (literalOf_plain_parts _ part Hex Hpart). by apply H1.
  - rewrite (literalOf_plain_parts _ part Hinc Hpart). by apply H2.
Qed.

Lemma name_filters_select_witness :
  Forall plainPart
    (CAMPAIGN_NAME_DOES_NOT_CONTAIN Sample.searchNotBrand
     ++ CAMPAIGN_NAME_CONTAINS Sample.searchNotBrand)
  /\ (Scenario.campaignC1
        ∈ get (filterCampaignsBasedOnName Sample.searchNotBrand
                 (selector Scenario.account)) <->
      Scenario.campaignC1 ∈ Scenario.account
      /\ (forall part, part ∈ CAMPAIGN_NAME_DOES_NOT_CONTAIN Sample.searchNotBrand ->
            nameContains part Scenario.campaignC1 = false)
      /\ (forall part, part ∈ CAMPAIGN_NAME_CONTAINS Sample.searchNotBrand ->
            nameContains part Scenario.campaignC1 = true)).
Proof.
  assert (Forall plainPart
            (CAMPAIGN_NAME_DOES_NOT_CONTAIN Sample.searchNotBrand
             ++ CAMPAIGN_NAME_CONTAINS Sample.searchNotBrand)) as Hplain.
  { repeat constructor; intros H; vm_compute in H;
      repeat (apply elem_of_cons in H as [H|H]; [discriminate H|]);
      destruct (proj1 (elem_of_nil _) H). }
  split; [exact Hplain|].
  exact (name_filters_select Sample.searchNotBrand Scenario.account
           Scenario.campaignC1 Hplain).
Defined.

(** X2.  With both name lists empty the name filters restrict nothing: every
    campaign of the account is selected, in the account's order. *)
Theorem empty_name_filters_select_all (cfg : Config) (account : list Campaign) :
  CAMPAIGN_NAME_DOES_NOT_CONTAIN cfg = [] ->
  CAMPAIGN_NAME_CONTAINS cfg = [] ->
  get (filterCampaignsBasedOnName cfg (selector account)) = account.
Proof.
  intros Hex Hinc. rewrite filterCampaignsBasedOnName_conditions, Hex, Hinc. simpl.
  apply get_selector.
Qed.

Lemma empty_name_filters_select_all_witness :
  CAMPAIGN_NAME_DOES_NOT_CONTAIN Sample.unfiltered = []
  /\ CAMPAIGN_NAME_CONTAINS Sample.unfiltered = []
  /\ get (filterCampaignsBasedOnName Sample.unfiltered (selector Scenario.account))
     = Scenario.account.
Proof.
  split; [reflexivity|]. split; [reflexivity|].
  exact (empty_name_filters_select_all Sample.unfiltered Scenario.account
           eq_refl eq_refl).
Defined.

(** ** What a run looks at *)

Section Probes.

Context (cfg : Config) {V : Type}.
Context (account : list Campaign) (audienceMapping : gmap string V).
Context (campaignPerformance adGroupPerformance : gmap string value).

(** The campaigns whose campaign-level audiences are counted are the
    surviving ones. *)
Lemma visits_probe (c : Campaign) :
  CampaignAudiences_totalNumEntities c
    ∈ calls (makeAllOperations cfg account audienceMapping
               campaignPerformance adGroupPerformance) <->
  c ∈ survivingCampaigns cfg account.
Proof.
  rewrite elem_of_run_calls. split.
  - intros [H|(c' & Hc' & Hx)]; [done|]. unfold campaignCalls in Hx.
    apply elem_of_cons in Hx as [Hx|Hx]; [by injection Hx as ->|].
    destruct (totalNumEntities (get (selector (campaignAudiences c'))) >? 0).
    + by apply list_elem_of_singleton in Hx.
    + apply elem_of_cons in Hx as [Hx|Hx]; [done|].
      by apply list_elem_of_fmap in Hx as (g & Hg & _).
  - intros Hc. right. exists c. split; [done|]. apply list_elem_of_here.
Qed.

(** A campaign that does not survive the filters is not touched. *)
Lemma untouched_campaign (c : Campaign) :
  c ∉ survivingCampaigns cfg account ->
  let log := calls (makeAllOperations cfg account audienceMapping
                      campaignPerformance adGroupPerformance) in
  (CampaignAudiences_totalNumEntities c ∉ log)
  /\ (Audiences_get (OfCampaign c) ∉ log)
  /\ AdGroups_get c ∉ log.
Proof.
  intros Hout log. subst log. split; [|split].
  - by rewrite visits_probe.
  - rewrite visits_campaign_level. tauto.
  - rewrite visits_adGroups. tauto.
Qed.

End Probes.

(** X3.  Exclusion wins over inclusion: a campaign whose name contains, in any
    case, a part of [CAMPAIGN_NAME_DOES_NOT_CONTAIN] (a part without
    backslash) is not among the campaigns the run goes through, whatever
    [CAMPAIGN_NAME_CONTAINS] holds, and the run makes no call on it. *)
Theorem excluded_campaign_untouched (cfg : Config) {V} (account : list Campaign)
    (audienceMapping : gmap string V)
    (campaignPerformance adGroupPerformance : gmap string value)
    (part : string) (c : Campaign) :
  part ∈ CAMPAIGN_NAME_DOES_NOT_CONTAIN cfg ->
  backslash ∉ list_ascii_of_string part ->
  nameContains part c = true ->
  let log := calls (makeAllOperations cfg account audienceMapping
                      campaignPerformance adGroupPerformance) in
  (c ∉ survivingCampaigns cfg account)
  /\ (CampaignAudiences_totalNumEntities c ∉ log)
  /\ (Audiences_get (OfCampaign c) ∉ log)
  /\ AdGroups_get c ∉ log.
Proof.
  intros Hpart Hplain Hname log.
  assert (c ∉ survivingCampaigns cfg account) as Hout.
  { intros [Hsel _]%survivingCampaigns_selects.
    apply filterCampaignsBasedOnName_selects in Hsel as (_ & Hex & _).
    specialize (Hex part Hpart). rewrite (literalOf_plain part Hplain) in Hex.
    congruence. }
  split; [exact Hout|]. by apply untouched_campaign.
Qed.

Lemma excluded_campaign_untouched_witness :
  let log := calls (makeAllOperations Sample.searchNotBrand
                      [Sample.campaignBrandSearch] Scenario.mapping
                      Scenario.campaignPerformance Scenario.adGroupPerformance) in
  "Brand" ∈ CAMPAIGN_NAME_DOES_NOT_CONTAIN Sample.searchNotBrand
  /\ nameContains "_Search_" Sample.campaignBrandSearch = true
  /\ nameContains "Brand" Sample.campaignBrandSearch = true
  /\ (Sample.campaignBrandSearch
        ∉ survivingCampaigns Sample.searchNotBrand [Sample.campaignBrandSearch])
  /\ (CampaignAudiences_totalNumEntities Sample.campaignBrandSearch ∉ log)
  /\ (Audiences_get (OfCampaign Sample.campaignBrandSearch) ∉ log)
  /\ AdGroups_get Sample.campaignBrandSearch ∉ log.
Proof.
  assert ("Brand" ∈ CAMPAIGN_NAME_DOES_NOT_CONTAIN Sample.searchNotBrand) as Hpart
    by apply list_elem_of_here.
  assert (backslash ∉ list_ascii_of_string "Brand") as Hplain.
  { intros H. vm_compute in H.
    repeat (apply elem_of_cons in H as [H|H]; [discriminate H|]).
    by apply elem_of_nil in H. }
  split; [exact Hpart|]. split; [reflexivity|]. split; [reflexivity|].
  exact (excluded_campaign_untouched Sample.searchNotBrand
           [Sample.campaignBrandSearch] Scenario.mapping
           Scenario.campaignPerformance Scenario.adGroupPerformance
           "Brand" Sample.campaignBrandSearch Hpart Hplain eq_refl).
Defined.

(** X4.  Every operation of a run is for an audience with more impressions
    than [MINIMUM_IMPRESSIONS] over the configured date range. *)
Theorem operations_above_threshold (cfg : Config) {V} (account : list Campaign)
    (audienceMapping : gmap string V)
    (campaignPerformance adGroupPerformance : gmap string value) (op : Operation) :
  op ∈ result (makeAllOperations cfg account audienceMapping
                 campaignPerformance adGroupPerformance) ->
  MINIMUM_IMPRESSIONS cfg < impressionsOf cfg (audience op).
Proof.
  intros (_ & entity & Hkept)%run_operation_origin.
  by apply keptAudiences_spec in Hkept as (_ & Himp & _).
Qed.

Lemma operations_above_threshold_witness :
  let op := {| audience := Scenario.audience111; modifier := ofDecimal false 125 (-2) |} in
  op ∈ result (makeAllOperations shipped [Scenario.campaignC1] Scenario.mapping
                 Scenario.campaignPerformance Scenario.adGroupPerformance)
  /\ MINIMUM_IMPRESSIONS shipped < impressionsOf shipped (audience op).
Proof.
  assert ({| audience := Scenario.audience111; modifier := ofDecimal false 125 (-2) |}
            ∈ result (makeAllOperations shipped [Scenario.campaignC1] Scenario.mapping
                        Scenario.campaignPerformance Scenario.adGroupPerformance))
    as Hin by (vm_compute; apply list_elem_of_here).
  split; [exact Hin|].
  exact (operations_above_threshold shipped [Scenario.campaignC1] Scenario.mapping
           Scenario.campaignPerformance Scenario.adGroupPerformance _ Hin).
Defined.

(** X5.  The impressions test is strict: a campaign with at most
    [MINIMUM_IMPRESSIONS] impressions over the date range, exactly that many
    included, is not among the campaigns the run goes through, and the run
    makes no call on it. *)
Theorem campaign_at_threshold_untouched (cfg : Config) {V} (account : list Campaign)
    (audienceMapping : gmap string V)
    (campaignPerformance adGroupPerformance : gmap string value) (c : Campaign) :
  impressionsOf cfg c <= MINIMUM_IMPRESSIONS cfg ->
  let log := calls (makeAllOperations cfg account audienceMapping
                      campaignPerformance adGroupPerformance) in
  (c ∉ survivingCampaigns cfg account)
  /\ (CampaignAudiences_totalNumEntities c ∉ log)
  /\ (Audiences_get (OfCampaign c) ∉ log)
  /\ AdGroups_get c ∉ log.
Proof.
  intros Hlow log.
  assert (c ∉ survivingCampaigns cfg account) as Hout.
  { intros [_ Himp]%survivingCampaigns_selects. lia. }
  split; [exact Hout|]. by apply untouched_campaign.
Qed.

Lemma campaign_at_threshold_untouched_witness :
  let log := calls (makeAllOperations shipped [Sample.campaignAtThreshold]
                      Scenario.mapping Scenario.campaignPerformance
                      Scenario.adGroupPerformance) in
  impressionsOf shipped Sample.campaignAtThreshold = MINIMUM_IMPRESSIONS shipped
  /\ (Sample.campaignAtThreshold ∉ survivingCampaigns shipped [Sample.campaignAtThreshold])
  /\ (CampaignAudiences_totalNumEntities Sample.campaignAtThreshold ∉ log)
  /\ (Audiences_get (OfCampaign Sample.campaignAtThreshold) ∉ log)
  /\ AdGroups_get Sample.campaignAtThreshold ∉ log.
Proof.
  split; [reflexivity|].
  apply (campaign_at_threshold_untouched shipped [Sample.campaignAtThreshold]
           Scenario.mapping Scenario.campaignPerformance Scenario.adGroupPerformance
           Sample.campaignAtThreshold).
  vm_compute. discriminate.
Defined.

(** ** The modifier calculator, further *)

Section CalculatorFurther.

Context (cfg : Config).

(** A baseline whose coercion is not the negative zero gives every operation
    the same numerator. *)
Lemma makeOperations_coerced (baseline : value) (audiences : list Audience) :
  parseFloat baseline <> negzero ->
  makeOperations cfg baseline audiences
  = operationFor cfg (parseFloat baseline)
      <$> filter (fun a => hasConversions cfg a) audiences.
Proof.
  intros Hnz. induction audiences as [|a rest IH]; [done|].
  rewrite makeOperations_cons, filter_cons, IH.
  rewrite (makeOperations_settled cfg _ _ (parseFloat_again _ Hnz)).
  by destruct (hasConversions cfg a).
Qed.

(** A number greater than zero is a positive finite number or the positive
    infinity. *)
Lemma gt_zero_shape (x : number) :
  gt x zero = true ->
  (exists m e, x = S754_finite false m e) \/ x = S754_infinity false.
Proof. destruct x as [[]|[]| |[] m e]; try discriminate; eauto. Qed.

End CalculatorFurther.

(** X6.  Whatever the baseline, the operations [makeOperations] returns are
    for exactly the audiences with conversions greater than zero, one
    operation each, in the order the audiences were given. *)
Theorem makeOperations_audiences (cfg : Config) (entityCpa : value)
    (audiences : list Audience) :
  audience <$> makeOperations cfg entityCpa audiences
  = filter (fun a => hasConversions cfg a) audiences.
Proof.
  revert entityCpa. induction audiences as [|a rest IH]; intros v; [done|].
  rewrite makeOperations_cons, filter_cons.
  destruct (hasConversions cfg a); [|apply IH].
  csimpl. by rewrite IH.
Qed.

(** X7.  An audience with conversions and a cost equal to zero has a cost per
    conversion of zero; against a baseline that reads as a number greater
    than zero its modifier is an infinity, and it is emitted as such. *)
Theorem free_conversions_infinite_modifier (cfg : Config) (baseline : value)
    (audiences : list Audience) (op : Operation) :
  gt (parseFloat baseline) zero = true ->
  op ∈ makeOperations cfg baseline audiences ->
  equals (costOf cfg (audience op)) zero = true ->
  exists sign, modifier op = S754_infinity sign.
Proof.
  intros Hpos Hop Hfree.
  assert (parseFloat baseline <> negzero) as Hnz
    by (intros Hz; rewrite Hz in Hpos; discriminate Hpos).
  rewrite (makeOperations_coerced cfg _ _ Hnz) in Hop.
  apply list_elem_of_fmap in Hop as (a & -> & Ha).
  apply list_elem_of_filter in Ha as [Hconv _]. apply Is_true_true in Hconv.
  simpl in *. unfold hasConversions in Hconv. unfold modifierFormula.
  destruct (costOf cfg a) as [sc|[]| |[] ? ?];
    try (vm_compute in Hfree; discriminate Hfree).
  apply gt_zero_shape in Hconv as [(m & e & ->)| ->];
    apply gt_zero_shape in Hpos as [(m' & e' & ->)| ->];
    by eexists.
Qed.

Lemma free_conversions_infinite_modifier_witness :
  let op := {| audience := Sample.audienceFree; modifier := S754_infinity false |} in
  gt (parseFloat (str "2.50")) zero = true
  /\ op ∈ makeOperations shipped (str "2.50") [Sample.audienceFree]
  /\ equals (costOf shipped (audience op)) zero = true
  /\ exists sign, modifier op = S754_infinity sign.
Proof.
  assert ({| audience := Sample.audienceFree; modifier := S754_infinity false |}
            ∈ makeOperations shipped (str "2.50") [Sample.audienceFree]) as Hin
    by (vm_compute; apply list_elem_of_here).
  split; [reflexivity|]. split; [exact Hin|]. split; [reflexivity|].
  exact (free_conversions_infinite_modifier shipped (str "2.50")
           [Sample.audienceFree] _ eq_refl Hin eq_refl).
Defined.

(** ** The main loop, further *)

Lemma survivingCampaigns_app (cfg : Config) (l1 l2 : list Campaign) :
  survivingCampaigns cfg (l1 ++ l2)
  = survivingCampaigns cfg l1 ++ survivingCampaigns cfg l2.
Proof.
  unfold survivingCampaigns. rewrite !filterCampaignsBasedOnName_conditions.
  unfold get. simpl. apply filter_app.
Qed.

(** X8.  Campaigns are handled one by one: the operations of a run over two
    lists of campaigns put end to end are the operations for the first list
    followed by the operations for the second. *)
Theorem operations_of_concatenated_accounts (cfg : Config) {V}
    (account1 account2 : list Campaign) (audienceMapping : gmap string V)
    (campaignPerformance adGroupPerformance : gmap string value) :
  result (makeAllOperations cfg (account1 ++ account2) audienceMapping
            campaignPerformance adGroupPerformance)
  = result (makeAllOperations cfg account1 audienceMapping
              campaignPerformance adGroupPerformance)
    ++ result (makeAllOperations cfg account2 audienceMapping
                 campaignPerformance adGroupPerformance).
Proof.
  rewrite !makeAllOperations_unfold. unfold result. simpl.
  by rewrite survivingCampaigns_app, fmap_app, concat_app.
Qed.

(** X9.  Each baseline table is read at its own level only.  When every
    campaign of the account has an audience attached at campaign level, the
    run is the same whatever the ad group performance table holds; when none
    has, the run is the same whatever the campaign performance table holds. *)
Theorem performance_tables_by_level (cfg : Config) {V} (account : list Campaign)
    (audienceMapping : gmap string V) :
  ((forall c, c ∈ account -> campaignAudiences c <> []) ->
   forall campaignPerformance adGroupPerformance adGroupPerformance',
     makeAllOperations cfg account audienceMapping campaignPerformance adGroupPerformance
     = makeAllOperations cfg account audienceMapping campaignPerformance adGroupPerformance')
  /\ ((forall c, c ∈ account -> campaignAudiences c = []) ->
      forall campaignPerformance campaignPerformance' adGroupPerformance,
        makeAllOperations cfg account audienceMapping campaignPerformance adGroupPerformance
        = makeAllOperations cfg account audienceMapping campaignPerformance' adGroupPerformance).
Proof.
  split; intros Hall cp x y; rewrite !makeAllOperations_unfold; f_equal; f_equal;
    apply list_fmap_ext; intros _ c Hc%list_elem_of_lookup_2;
    apply survivingCampaigns_account in Hc; specialize (Hall c Hc);
    unfold campaignOperations.
  - apply campaign_level_test in Hall. by rewrite Hall.
  - rewrite Hall. done.
Qed.

(** X10.  A download with the header row and no data row loads as the empty
    mapping, and with it a run makes no operation at all. *)
Theorem header_only_download_no_operations (headers : list string)
    (mapping : gmap string (option string)) :
  getInMarketAudienceMapping [headers] = inr mapping ->
  mapping = ∅
  /\ forall cfg account campaignPerformance adGroupPerformance,
       result (makeAllOperations cfg account mapping
                 campaignPerformance adGroupPerformance) = [].
Proof.
  intros Hload. apply getInMarketAudienceMapping_rows in Hload. simpl in Hload.
  split; [exact Hload|]. subst mapping. intros cfg account cp ap.
  destruct (result (makeAllOperations cfg account (∅ : gmap string (option string)) cp ap))
    as [|op rest] eqn:E; [done|].
  assert (op ∈ result (makeAllOperations cfg account
                         (∅ : gmap string (option string)) cp ap)) as Hop
    by (rewrite E; apply list_elem_of_here).
  apply run_operation_origin in Hop as (_ & entity & Hkept).
  apply keptAudiences_spec in Hkept as (_ & _ & Hm).
  unfold inMarket in Hm. rewrite dom_empty_L in Hm. by apply elem_of_empty in Hm.
Qed.

Lemma header_only_download_no_operations_witness :
  getInMarketAudienceMapping [["Criterion ID"; "Category"]] = inr ∅
  /\ forall cfg account campaignPerformance adGroupPerformance,
       result (makeAllOperations cfg account (∅ : gmap string (option string))
                 campaignPerformance adGroupPerformance) = [].
Proof.
  split; [reflexivity|].
  exact (proj2 (header_only_download_no_operations ["Criterion ID"; "Category"] ∅
                  eq_refl)).
Defined.

(** ** Reports, [applyBids] and [main] *)

Lemma getEntityPerformance_unfold (world : World) (cfg : Config)
    (entityIdFieldName reportName : string) :
  getEntityPerformance world cfg entityIdFieldName reportName
  = ([AdsApp_report (reportQuery cfg entityIdFieldName reportName)],
     inr (performanceOf entityIdFieldName
            (reportRows world (reportQuery cfg entityIdFieldName reportName)))).
Proof. reflexivity. Qed.

Lemma applyBids_unfold (operations : list Operation) :
  applyBids operations = (bidWrite <$> operations, tt).
Proof.
  unfold applyBids. induction operations as [|op rest IH]; [done|].
  cbn [whileHasNext]. unfold mbind at 1, script_bind at 1, tell at 1.
  by rewrite IH.
Qed.

Lemma bidWrites_app (l1 l2 : list effect) :
  bidWrites (l1 ++ l2) = bidWrites l1 ++ bidWrites l2.
Proof. apply omap_app. Qed.

Lemma bidWrites_writes (operations : list Operation) :
  bidWrites (AdsApp_call <$> (bidWrite <$> operations))
  = (fun op => (audience op, modifier op)) <$> operations.
Proof. induction operations as [|op rest IH]; [done|]. csimpl. by rewrite IH. Qed.

(** Reading the account writes no bid. *)
Lemma bidWrites_reads {V} (cfg : Config) (account : list Campaign)
    (m : gmap string V) (cp ap : gmap string value) :
  bidWrites (AdsApp_call <$> calls (makeAllOperations cfg account m cp ap)) = [].
Proof.
  rewrite makeAllOperations_unfold. unfold calls. csimpl.
  induction (survivingCampaigns cfg account) as [|c rest IH]; [done|].
  csimpl. rewrite fmap_app, bidWrites_app, IH, app_nil_r.
  unfold campaignCalls. csimpl.
  destruct (totalNumEntities (get (selector (campaignAudiences c))) >? 0); [done|].
  csimpl. by induction (survivingAdGroups cfg c) as [|g gs IHg].
Qed.

Section Main.

Context (world : World) (cfg : Config).

Let campaignTable : gmap string value :=
  performanceOf "CampaignId"
    (reportRows world (reportQuery cfg "CampaignId" "CAMPAIGN_PERFORMANCE_REPORT")).

Let adGroupTable : gmap string value :=
  performanceOf "AdGroupId"
    (reportRows world (reportQuery cfg "AdGroupId" "ADGROUP_PERFORMANCE_REPORT")).

Lemma main_thrown (e : exn) :
  getInMarketAudienceMapping (fetchCsv world AUDIENCE_MAPPING_CSV_DOWNLOAD_URL) = inl e ->
  main world cfg
  = ([Logger_log "Getting audience mapping";
      UrlFetchApp_fetch AUDIENCE_MAPPING_CSV_DOWNLOAD_URL], inl e).
Proof.
  intros Hload. unfold main.
  cbv beta iota delta [mbind job_bind perform throwing]. by rewrite Hload.
Qed.

Lemma main_completed (mapping : gmap string (option string)) :
  getInMarketAudienceMapping (fetchCsv world AUDIENCE_MAPPING_CSV_DOWNLOAD_URL)
  = inr mapping ->
  let run := makeAllOperations cfg (campaigns world) mapping
               campaignTable adGroupTable in
  main world cfg
  = ([Logger_log "Getting audience mapping";
      UrlFetchApp_fetch AUDIENCE_MAPPING_CSV_DOWNLOAD_URL;
      Logger_log "Getting campaign performance";
      AdsApp_report (reportQuery cfg "CampaignId" "CAMPAIGN_PERFORMANCE_REPORT");
      Logger_log "Getting ad group performance";
      AdsApp_report (reportQuery cfg "AdGroupId" "ADGROUP_PERFORMANCE_REPORT");
      Logger_log "Making operations"]
     ++ (AdsApp_call <$> calls run)
     ++ [Logger_log "Applying bids"]
     ++ (AdsApp_call <$> (bidWrite <$> result run)),
     inr tt).
Proof.
  intros Hload run. unfold main, getCampaignPerformance, getAdGroupPerformance.
  rewrite !getEntityPerformance_unfold.
  cbv beta iota delta [mbind job_bind perform throwing onAccount mret job_ret].
  rewrite Hload. fold campaignTable adGroupTable. fold run.
  rewrite applyBids_unfold. unfold calls at 2, result at 3. simpl.
  reflexivity.
Qed.

End Main.

(** X11.  [getEntityPerformance] sends one query and files each row under its
    entity id.  In the table it returns, an id that no row has reads as
    [undefined], unless it is a name every object answers through its
    prototype; an id that several rows have holds the cost per conversion of
    the last of them; and a row whose id is [__proto__] is not stored. *)
Theorem report_last_row_wins (world : World) (cfg : Config)
    (entityIdFieldName reportName : string) :
  let query := reportQuery cfg entityIdFieldName reportName in
  let idOf := fun row : gmap string string => propertyKey (row !! entityIdFieldName) in
  exists performance,
    getEntityPerformance world cfg entityIdFieldName reportName
    = ([AdsApp_report query], inr performance)
    /\ (forall id,
          id ∉ prototypeNames ->
          (forall row, row ∈ reportRows world query -> idOf row <> id) ->
          property performance id = undefined)
    /\ (forall before row after,
          reportRows world query = before ++ row :: after ->
          idOf row <> "__proto__" ->
          (forall later, later ∈ after -> idOf later <> idOf row) ->
          property performance (idOf row) = field row "CostPerAllConversion")
    /\ performance !! "__proto__" = None.
Proof.
  intros query idOf. eexists. split; [apply getEntityPerformance_unfold|].
  fold query. unfold performanceOf, property. split; [|split].
  - intros id Hown Hnone.
    rewrite (load_untouched idOf (fun row => field row "CostPerAllConversion"))
      by exact Hnone.
    rewrite lookup_empty. by destruct (decide (id ∈ prototypeNames)).
  - intros before row after -> Hp Hafter.
    by rewrite (load_last idOf (fun row => field row "CostPerAllConversion")).
  - by rewrite (load_proto idOf (fun row => field row "CostPerAllConversion")).
Qed.

(** X12.  When the header row of the download lacks Criterion ID or Category,
    [main] ends with the error about the headers right after the download:
    no report is queried, the account is not read, and no bid is written. *)
Theorem main_aborts_on_missing_headers (world : World) (cfg : Config)
    (headers : list string) (rows : list (list string)) :
  fetchCsv world AUDIENCE_MAPPING_CSV_DOWNLOAD_URL = headers :: rows ->
  "Criterion ID" ∉ headers \/ "Category" ∉ headers ->
  main world cfg
  = ([Logger_log "Getting audience mapping";
      UrlFetchApp_fetch AUDIENCE_MAPPING_CSV_DOWNLOAD_URL],
     inl (Error "The audience CSV does not have the expected headers")).
Proof.
  intros Hcsv Hmissing. apply main_thrown. rewrite Hcsv.
  unfold getInMarketAudienceMapping.
  destruct Hmissing as [H|H]; apply indexOf_missing in H; rewrite H; simpl; [done|].
  by rewrite orb_true_r.
Qed.

Lemma main_aborts_on_missing_headers_witness :
  fetchCsv Sample.worldWithoutCategory AUDIENCE_MAPPING_CSV_DOWNLOAD_URL
  = ["Criterion ID"; "Name"] :: [["111"; "Shoppers"]]
  /\ main Sample.worldWithoutCategory shipped
     = ([Logger_log "Getting audience mapping";
         UrlFetchApp_fetch AUDIENCE_MAPPING_CSV_DOWNLOAD_URL],
        inl (Error "The audience CSV does not have the expected headers")).
Proof.
  split; [reflexivity|].
  apply (main_aborts_on_missing_headers Sample.worldWithoutCategory shipped
           ["Criterion ID"; "Name"] [["111"; "Shoppers"]] eq_refl).
  right. intros H. vm_compute in H.
  repeat (apply elem_of_cons in H as [H|H]; [discriminate H|]).
  by apply elem_of_nil in H.
Defined.

(** The shape of a completed run of [main]. *)
Lemma main_shape (world : World) (cfg : Config)
    (mapping : gmap string (option string)) :
  getInMarketAudienceMapping (fetchCsv world AUDIENCE_MAPPING_CSV_DOWNLOAD_URL)
  = inr mapping ->
  let campaignTable :=
    performanceOf "CampaignId"
      (reportRows world (reportQuery cfg "CampaignId" "CAMPAIGN_PERFORMANCE_REPORT")) in
  let adGroupTable :=
    performanceOf "AdGroupId"
      (reportRows world (reportQuery cfg "AdGroupId" "ADGROUP_PERFORMANCE_REPORT")) in
  let operations :=
    result (makeAllOperations cfg (campaigns world) mapping campaignTable adGroupTable) in
  exists reads,
    main world cfg = (reads ++ (AdsApp_call <$> (bidWrite <$> operations)), inr tt)
    /\ bidWrites reads = [].
Proof.
  intros Hload campaignTable adGroupTable operations.
  pose proof (main_completed world cfg mapping Hload) as Hmain.
  cbv zeta in Hmain. fold campaignTable adGroupTable in Hmain.
  fold operations in Hmain.
  set (run := makeAllOperations cfg (campaigns world) mapping campaignTable adGroupTable)
    in *.
  set (reads :=
         [Logger_log "Getting audience mapping";
          UrlFetchApp_fetch AUDIENCE_MAPPING_CSV_DOWNLOAD_URL;
          Logger_log "Getting campaign performance";
          AdsApp_report (reportQuery cfg "CampaignId" "CAMPAIGN_PERFORMANCE_REPORT");
          Logger_log "Getting ad group performance";
          AdsApp_report (reportQuery cfg "AdGroupId" "ADGROUP_PERFORMANCE_REPORT");
          Logger_log "Making operations"]
         ++ (AdsApp_call <$> calls run) ++ [Logger_log "Applying bids"]).
  assert (bidWrites reads = []) as Hreads.
  { subst reads. rewrite !bidWrites_app. unfold run. by rewrite bidWrites_reads. }
  assert (main world cfg
          = (reads ++ (AdsApp_call <$> (bidWrite <$> operations)), inr tt)) as Hshape.
  { rewrite Hmain. f_equal. subst reads. by rewrite <- !app_assoc. }
  exists reads. by split.
Qed.

(** X13.  When the download loads, [main] completes, and it reads before it
    writes: its effects are reads (logging, the download, the two reports,
    the account) followed by one bid write for each operation that
    [makeAllOperations] made from the loaded mapping and the two report
    tables, in the order of the operations; no bid is written before. *)
Theorem main_reads_then_writes (world : World) (cfg : Config)
    (mapping : gmap string (option string)) :
  getInMarketAudienceMapping (fetchCsv world AUDIENCE_MAPPING_CSV_DOWNLOAD_URL)
  = inr mapping ->
  let campaignTable :=
    performanceOf "CampaignId"
      (reportRows world (reportQuery cfg "CampaignId" "CAMPAIGN_PERFORMANCE_REPORT")) in
  let adGroupTable :=
    performanceOf "AdGroupId"
      (reportRows world (reportQuery cfg "AdGroupId" "ADGROUP_PERFORMANCE_REPORT")) in
  let operations :=
    result (makeAllOperations cfg (campaigns world) mapping campaignTable adGroupTable) in
  exists reads,
    main world cfg = (reads ++ (AdsApp_call <$> (bidWrite <$> operations)), inr tt)
    /\ bidWrites reads = []
    /\ bidWrites (effects (main world cfg))
       = (fun op => (audience op, modifier op)) <$> operations.
Proof.
  intros Hload campaignTable adGroupTable operations.
  destruct (main_shape world cfg mapping Hload) as (reads & Hshape & Hreads).
  exists reads. split; [exact Hshape|]. split; [exact Hreads|].
  rewrite Hshape. unfold effects. cbn [fst].
  by rewrite bidWrites_app, Hreads, bidWrites_writes.
Qed.

Lemma main_reads_then_writes_witness :
  exists mapping,
    getInMarketAudienceMapping
      (fetchCsv Sample.world AUDIENCE_MAPPING_CSV_DOWNLOAD_URL) = inr mapping
    /\ exists reads,
         main Sample.world shipped
         = (reads ++ [AdsApp_call (Bidding_setBidModifier Scenario.audience111
                                     (ofDecimal false 125 (-2)));
                      AdsApp_call (Bidding_setBidModifier Scenario.audience111 (ofZ 2))],
            inr tt)
         /\ bidWrites reads = []
         /\ bidWrites (effects (main Sample.world shipped))
            = [(Scenario.audience111, ofDecimal false 125 (-2));
               (Scenario.audience111, ofZ 2)].
Proof.
  eexists. split; [reflexivity|].
  exact (main_reads_then_writes Sample.world shipped _ eq_refl).
Defined.

(** X14.  [main] writes a bid only for an audience whose id is a Criterion ID
    of the download, that has conversions greater than zero and more
    impressions than the minimum. *)
Theorem main_writes_only_listed_audiences (world : World) (cfg : Config)
    (a : Audience) (m : number) :
  (a, m) ∈ bidWrites (effects (main world cfg)) ->
  hasConversions cfg a = true
  /\ MINIMUM_IMPRESSIONS cfg < impressionsOf cfg a
  /\ exists headers rows row,
       fetchCsv world AUDIENCE_MAPPING_CSV_DOWNLOAD_URL = headers :: rows
       /\ row ∈ rows
       /\ criterionIdOf headers row = getAudienceId a.
Proof.
  intros Hwrite.
  destruct (getInMarketAudienceMapping
              (fetchCsv world AUDIENCE_MAPPING_CSV_DOWNLOAD_URL))
    as [e|mapping] eqn:Hload.
  { rewrite (main_thrown world cfg e Hload) in Hwrite.
    by apply elem_of_nil in Hwrite. }
  destruct (main_shape world cfg mapping Hload) as (reads & Hshape & Hreads).
  rewrite Hshape in Hwrite. unfold effects in Hwrite. cbn [fst] in Hwrite.
  rewrite bidWrites_app, Hreads, bidWrites_writes in Hwrite. simpl in Hwrite.
  apply list_elem_of_fmap in Hwrite as (op & Heq & Hop). injection Heq as -> ->.
  apply run_operation_origin in Hop as (Hconv & entity & Hkept).
  apply keptAudiences_spec in Hkept as (_ & Himp & Hm).
  split; [done|]. split; [done|].
  destruct (fetchCsv world AUDIENCE_MAPPING_CSV_DOWNLOAD_URL) as [|headers rows] eqn:Hcsv;
    [discriminate Hload|].
  unfold inMarket in Hm.
  destruct (proj1 (getInMarketAudienceMapping_dom headers rows mapping _ Hload) Hm)
    as (_ & row & Hrow & Hid).
  by exists headers, rows, row.
Qed.

Lemma main_writes_only_listed_audiences_witness :
  (Scenario.audience111, ofZ 2) ∈ bidWrites (effects (main Sample.world shipped))
  /\ hasConversions shipped Scenario.audience111 = true
  /\ MINIMUM_IMPRESSIONS shipped < impressionsOf shipped Scenario.audience111
  /\ exists headers rows row,
       fetchCsv Sample.world AUDIENCE_MAPPING_CSV_DOWNLOAD_URL = headers :: rows
       /\ row ∈ rows
       /\ criterionIdOf headers row = getAudienceId Scenario.audience111.
Proof.
  assert ((Scenario.audience111, ofZ 2)
            ∈ bidWrites (effects (main Sample.world shipped))) as Hin
    by (vm_compute; apply list_elem_of_further, list_elem_of_here).
  split; [exact Hin|].
  exact (main_writes_only_listed_audiences Sample.world shipped
           Scenario.audience111 (ofZ 2) Hin).
Defined.

(** X15.  [applyBids] makes one [setBidModifier] call per operation, in the
    order of the list, with the operation's own audience and modifier; it
    skips none, whatever the modifier is, and does nothing on an empty
    list. *)
Theorem applyBids_one_write_each (operations : list Operation) :
  length (calls (applyBids operations)) = length operations
  /\ (forall i op,
        operations !! i = Some op ->
        calls (applyBids operations) !! i
        = Some (Bidding_setBidModifier (audience op) (modifier op)))
  /\ (operations = [] -> calls (applyBids operations) = []).
Proof.
  rewrite applyBids_unfold. unfold calls. simpl. split; [|split].
  - apply length_fmap.
  - intros i op Hop. by rewrite list_lookup_fmap, Hop.
  - by intros ->.
Qed.

(** X16.  A part without double quote goes into its condition as it is:
    [escapeDoubleQuotes] changes nothing in it; in general the escaped part
    is longer by the number of its double quotes. *)
Theorem escapeDoubleQuotes_plain (part : string) :
  (dquote ∉ list_ascii_of_string part -> escapeDoubleQuotes part = part)
  /\ String.length (escapeDoubleQuotes part)
     = (String.length part
        + length (filter (fun c => c = dquote) (list_ascii_of_string part)))%nat.
Proof.
  induction part as [|c rest [IH1 IH2]]; [done|]. simpl.
  rewrite not_elem_of_cons, filter_cons.
  destruct (Ascii.eqb c dquote) eqn:E.
  - apply Ascii.eqb_eq in E. subst c. split; [by intros [? _]|].
    destruct (decide (dquote = dquote)); [|done]. simpl. rewrite IH2. lia.
  - apply Ascii.eqb_neq in E. split.
    + intros [_ Hrest]. by rewrite IH1.
    + destruct (decide (c = dquote)); [done|]. simpl. by rewrite IH2.
Qed.

(** X17.  The test for campaign-level audiences looks at no impressions while
    the fetch that follows does: a campaign whose campaign-level audiences
    all have at most [MINIMUM_IMPRESSIONS] impressions is still handled at
    campaign level, so a run over it makes no operation, whatever audiences
    its ad groups hold. *)
Theorem quiet_campaign_audiences_no_operations (cfg : Config) {V}
    (audienceMapping : gmap string V)
    (campaignPerformance adGroupPerformance : gmap string value) (c : Campaign) :
  campaignAudiences c <> [] ->
  (forall a, a ∈ campaignAudiences c -> impressionsOf cfg a <= MINIMUM_IMPRESSIONS cfg) ->
  result (makeAllOperations cfg [c] audienceMapping
            campaignPerformance adGroupPerformance) = [].
Proof.
  intros Hany Hquiet.
  destruct (result (makeAllOperations cfg [c] audienceMapping
                      campaignPerformance adGroupPerformance))
    as [|op rest] eqn:E; [done|].
  assert (op ∈ result (makeAllOperations cfg [c] audienceMapping
                         campaignPerformance adGroupPerformance)) as Hop
    by (rewrite E; apply list_elem_of_here).
  apply elem_of_run_result in Hop as (c' & Hc' & Hop).
  apply survivingCampaigns_account, list_elem_of_singleton in Hc' as ->.
  unfold campaignOperations in Hop.
  apply campaign_level_test in Hany. rewrite Hany in Hop.
  apply makeOperations_audience in Hop as [Hkept _].
  apply keptAudiences_spec in Hkept as (Hatt & Himp & _).
  specialize (Hquiet _ Hatt). lia.
Qed.

Lemma quiet_campaign_audiences_no_operations_witness :
  campaignAudiences Sample.campaignShadow <> []
  /\ campaignAdGroups Sample.campaignShadow = [Scenario.adGroupG1]
  /\ result (makeAllOperations shipped [Sample.campaignShadow] Scenario.mapping
               Scenario.campaignPerformance Scenario.adGroupPerformance) = [].
Proof.
  assert (campaignAudiences Sample.campaignShadow <> []) as Hany by discriminate.
  split; [exact Hany|]. split; [reflexivity|].
  apply (quiet_campaign_audiences_no_operations shipped Scenario.mapping
           Scenario.campaignPerformance Scenario.adGroupPerformance
           Sample.campaignShadow Hany).
  intros a Ha. apply list_elem_of_singleton in Ha as ->. vm_compute. discriminate.
Defined.

(** X18.  The impressions test is strict for ad groups too: the audiences of
    an ad group with at most [MINIMUM_IMPRESSIONS] impressions over the date
    range are never fetched in a run. *)
Theorem adGroup_at_threshold_untouched (cfg : Config) {V} (account : list Campaign)
    (audienceMapping : gmap string V)
    (campaignPerformance adGroupPerformance : gmap string value) (g : AdGroup) :
  impressionsOf cfg g <= MINIMUM_IMPRESSIONS cfg ->
  Audiences_get (OfAdGroup g)
    ∉ calls (makeAllOperations cfg account audienceMapping
               campaignPerformance adGroupPerformance).
Proof.
  intros Hlow [H|(c & Hc & Hx)]%elem_of_run_calls; [done|].
  unfold campaignCalls in Hx.
  apply elem_of_cons in Hx as [Hx|Hx]; [done|].
  destruct (totalNumEntities (get (selector (campaignAudiences c))) >? 0).
  - by apply list_elem_of_singleton in Hx.
  - apply elem_of_cons in Hx as [Hx|Hx]; [done|].
    apply list_elem_of_fmap in Hx as (g' & Heq & Hg'). injection Heq as <-.
    apply get_impressions in Hg' as [_ Himp]. lia.
Qed.

Lemma adGroup_at_threshold_untouched_witness :
  impressionsOf shipped Sample.adGroupAtThreshold = MINIMUM_IMPRESSIONS shipped
  /\ Audiences_get (OfAdGroup Sample.adGroupAtThreshold)
     ∉ calls (makeAllOperations shipped
                [ {| campaignId := "C2"; getName := "DE_Search_Generic";
                     campaignStats := Scenario.stats 100 2 8;
                     campaignAudiences := [];
                     campaignAdGroups := [Sample.adGroupAtThreshold] |} ]
                Scenario.mapping Scenario.campaignPerformance
                Scenario.adGroupPerformance).
Proof.
  split; [reflexivity|].
  apply (adGroup_at_threshold_untouched shipped _ Scenario.mapping
           Scenario.campaignPerformance Scenario.adGroupPerformance
           Sample.adGroupAtThreshold).
  vm_compute. discriminate.
Defined.
